(** * gnet (teamgram fork): reactor topology, cross-thread triggers, ConnId codec

  A shallow embedding of [engine.go], [reactor_epoll_default.go] and the
  [Engine] handle ([AsyncWrite] / [Trigger]), with the properties of the
  natural-language specification stated and proved over it.

  Conventions.
  - Go's [int], [int64] are [Z] ([int] is taken 64 bits wide); the 64-bit
    wrap-around is written out ([wrap64]); [uint16], [uint32] conversions
    are [Z.modulo].
  - Go maps keyed by a file descriptor are [gmap Z _].
  - A Go [error] is [option error]; [None] is [nil].
  - Calls that leave the modelled files (syscalls, the poller, the user's
    callbacks, [Conn.write]) are recorded in a trace of [call]s; what they
    do is a parameter (the classes of [External]).
  - A goroutine started with [go] is a [CallGo] entry of the trace; its
    body runs in a world of its own.

  Part I is the embedding, Part II the properties. *)

From Stdlib Require Import ZArith Lia List Bool.
From stdpp Require Import base gmap strings list fin_maps.

Local Open Scope Z_scope.

(** * Part I: the embedding *)

(** ** Machine integers *)

Module MachineInt.

(** Two's complement reduction of an unbounded integer to [int64]. *)
Definition wrap64 (z : Z) : Z := (z + 2 ^ 63) mod 2 ^ 64 - 2 ^ 63.

(** Go's [uint32(x)] and [uint16(x)] conversions. *)
Definition uint32 (z : Z) : Z := z mod 2 ^ 32.
Definition uint16 (z : Z) : Z := z mod 2 ^ 16.

Definition in_int64 (z : Z) : Prop := - 2 ^ 63 <= z < 2 ^ 63.

End MachineInt.

(** ** ConnId codec *)

Module ConnIdCodec.
Import MachineInt.

(** Modelled from the spec: the packing of a ConnId is not in the modelled
    files (only its decoding, in [AsyncWrite] and [Trigger], is); section 6
    gives it as [(loopIdx<<48) | (id<<32) | (uint32(fd))] on a 64-bit
    integer. Every intermediate result is reduced to [int64]. *)
Definition pack (loopIdx id fd : Z) : Z :=
  wrap64 (Z.lor (Z.lor (wrap64 (Z.shiftl loopIdx 48))
                       (wrap64 (Z.shiftl id 32)))
                (uint32 fd)).

(** [elidx := int(connId >> 48 & 0xffff)]; [>>] and [&] have the same
    precedence in Go and associate to the left; [>>] on [int64] is the
    arithmetic shift, which is [Z.shiftr]. *)
Definition decode_elidx (connId : Z) : Z :=
  Z.land (Z.shiftr connId 48) 0xffff.

(** [id := uint16(connId >> 32 & 0xffff)] *)
Definition decode_id (connId : Z) : Z :=
  uint16 (Z.land (Z.shiftr connId 32) 0xffff).

(** [fd := int(connId & 0xffffffff)] *)
Definition decode_fd (connId : Z) : Z :=
  Z.land connId 0xffffffff.

Definition decode (connId : Z) : Z * Z * Z :=
  (decode_elidx connId, decode_id connId, decode_fd connId).

End ConnIdCodec.

(** ** Errors *)

Module Errors.

(** The sentinels of [pkg/errors] that the modelled files name, kernel
    error numbers, and the two wrappers whose [Unwrap] the standard
    [errors.Is] follows. *)
Inductive error : Type :=
| ErrEngineShutdown
| ErrEmptyEngine
| ErrAcceptSocket
| Errno (code : Z)
| SyscallError (syscall : string) (inner : error)
| Wrapped (msg : string) (inner : error).

#[global] Instance error_eq_dec : EqDecision error.
Proof. solve_decision. Defined.

Definition EAGAIN : error := Errno 11.

(** [errors.Is] on a non-nil error: compare, then follow [Unwrap]. *)
Fixpoint is_chain (err target : error) : bool :=
  if bool_decide (err = target) then true
  else match err with
       | SyscallError _ inner | Wrapped _ inner => is_chain inner target
       | _ => false
       end.

(** [errors.Is(err, target)] for a non-nil [target]. *)
Definition errors_Is (err : option error) (target : error) : bool :=
  match err with
  | None => false
  | Some e => is_chain e target
  end.

(** [os.NewSyscallError(name, err)]: nil when [err] is nil. *)
Definition NewSyscallError (name : string) (err : option error) : option error :=
  match err with
  | None => None
  | Some e => Some (SyscallError name e)
  end.

End Errors.

(** ** Data model *)

Module Model.
Export Errors.

Definition bytes : Type := list Byte.byte.

(** A Go func value handed over by the user ([cb func(c Conn)]): a code
    pointer; what it does when invoked belongs to the user ([UserCode]). *)
Definition funcval : Type := N.

Record listener : Type := mkListener {
  ln_fd : Z;
  ln_network : string;
  ln_address : string
}.

(** The fields of [conn] that the modelled files read, and the outbound
    buffer that section 3 of the spec gives a connection. *)
Record conn : Type := mkConn {
  conn_fd : Z;
  conn_id : Z;            (* uint16 *)
  conn_opened : bool;
  conn_outbound : bytes
}.

Inductive priority : Type := HighPriority | LowPriority.

(** The closures handed to the poller's trigger queue. A closure captures
    its loop by pointer and is run on that loop, so it is kept as data and
    interpreted by [run_task] on the loop that dequeues it. *)
Inductive task : Type :=
| TaskAsyncWrite (id fd : Z) (data : bytes)   (* Engine.AsyncWrite's closure *)
| TaskTrigger (id fd : Z) (cb : funcval)      (* Engine.Trigger's closure *)
| TaskShutdown                                (* func(_) error { return ErrEngineShutdown } *)
| TaskRegister (c : conn).                    (* el.register, c *)

(** Modelled from the spec: [netpoll.Poller] is defined in another package;
    section 4.1 gives it an interest set and queues of closures, the urgent
    one drained first. Its methods are parameters ([Netpoll]). *)
Record poller : Type := mkPoller {
  urgentAsyncTaskQueue : list task;
  asyncTaskQueue : list (priority * task);
  interest : gset Z;
  poller_closed : bool
}.

Record eventloop : Type := mkEventloop {
  idx : Z;
  el_listeners : gmap Z listener;
  el_poller : poller;
  buffer : bytes;
  connections : gmap Z conn
}.

Record Options : Type := mkOptions {
  ReusePort : bool;
  Ticker : bool;
  LockOSThread : bool;
  ReadBufferCap : Z;
  TCPKeepAlive : Z
}.

(** [*eventloop] values held by the engine: a registered worker (its
    position in the load balancer) or the main loop. *)
Inductive loopref : Type := Worker (i : nat) | MainLoop.

Record engine : Type := mkEngine {
  listeners : gmap Z listener;      (* a nil map reads as the empty map *)
  lb : list eventloop;              (* the load balancer's loops, in registration order *)
  opts : Options;
  mainLoop : option eventloop;
  inShutdown : Z
}.

(** The [Engine] handle carries a [*engine]: nil, or the engine of the
    world the handle is used in. *)
Inductive engine_ptr : Type := nil_engine | this_engine.

Record Engine : Type := mkHandle { eng : engine_ptr }.

Inductive goroutine : Type :=
| GoRun (i : Z)                         (* el.run(...); wg.Done() *)
| GoSubReactor (i : Z)                  (* el.activateSubReactor(...); wg.Done() *)
| GoMainReactor                         (* el.activateMainReactor(...); wg.Done() *)
| GoTicker (receiver : option loopref). (* receiver.ticker(ctx) *)

Inductive loglevel : Type := Debugf | Errorf.

(** The calls that leave the modelled functions, as they appear in the
    trace. *)
Inductive call : Type :=
| CallConnWrite (c : conn) (data : bytes)
| CallCallback (cb : funcval) (c : conn)
| CallAccept (fd ev flags : Z)
| CallAccept0 (fd ev flags : Z)
| CallProcessIO (c : conn) (fd ev flags : Z)
| CallPollerDelete (fd : Z)
| CallLockOSThread
| CallUnlockOSThread
| CallPolling
| CallLogger (lvl : loglevel) (err : option error)
| CallCloseConns
| CallEngineShutdown (err : option error)
| CallWaitForShutdown
| CallOnShutdown
| CallTrigger (elidx : Z) (pri : priority) (t : task)
| CallUrgentTrigger (elidx : Z) (t : task)
| CallCloseAllListeners
| CallWgAdd
| CallWgWait
| CallPollerClose (elidx : Z)
| CallCancelTicker
| CallStoreInShutdown (v : Z)
| CallGo (g : goroutine)
| CallOpenPoller
| CallInitListener (network address : string)
| CallAddRead (fd : Z)
| CallRegister (elidx : Z)
| CallLoopRegister (c : conn)
(* the calls of [server.accept], with what they returned *)
| CallUnixAccept (fd : Z) (r : error + Z * string)
| CallSetNonblock (nfd : Z) (r : option error)
| CallSetKeepAlive (nfd secs : Z) (r : option error)
| CallLoggingError (err : option error)
| CallLbNext (remoteAddr : string) (i : nat)
| CallNewTCPConn (nfd : Z) (i : nat) (c : conn)
| CallRegisterTrigger (i : nat) (c : conn) (r : option error)
| CallUnixClose (nfd : Z)
| CallReleaseTCP (c : conn).

(** *** Worlds and the state monad

    A world is the state a function works on, a clock that advances at
    every external call (external results may depend on it: the kernel and
    the user are not functions of the modelled state), and the trace. *)
Record World (St : Type) : Type := mkWorld {
  st : St;
  tick : nat;
  log : list call
}.
Arguments mkWorld {St} _ _ _.
Arguments st {St} _.
Arguments tick {St} _.
Arguments log {St} _.

Definition ST (W A : Type) : Type := W -> A * W.

Definition ret {W A} (a : A) : ST W A := fun w => (a, w).

Definition bind {W A B} (m : ST W A) (k : A -> ST W B) : ST W B :=
  fun w => let '(a, w') := m w in k a w'.

Notation "'let*' x ':=' m 'in' k" := (bind m (fun x => k))
  (at level 10, x pattern, m at level 100, k at level 200).

Definition get {St} : ST (World St) St := fun w => (st w, w).

Definition put {St} (s : St) : ST (World St) unit :=
  fun w => (tt, mkWorld s (tick w) (log w)).

Definition emit {St} (c : call) : ST (World St) unit :=
  fun w => (tt, mkWorld (st w) (tick w) (log w ++ [c])).

(** An external call: recorded in the trace, applied to the state by the
    implementation [f], which sees the clock. *)
Definition ext {St A} (c : call) (f : nat -> St -> A * St) : ST (World St) A :=
  fun w => let '(a, s') := f (tick w) (st w) in
           (a, mkWorld s' (S (tick w)) (log w ++ [c])).

(** An external call whose trace entry records what it returned. *)
Definition ext_res {St A} (c : A -> call) (f : nat -> St -> A * St) : ST (World St) A :=
  fun w => let '(a, s') := f (tick w) (st w) in
           (a, mkWorld s' (S (tick w)) (log w ++ [c a])).

(** An external call that touches no modelled state. *)
Definition ext_pure {St A} (c : call) (f : nat -> A) : ST (World St) A :=
  ext c (fun t s => (f t, s)).

Abbreviation lworld := (World eventloop).
Abbreviation eworld := (World engine).

(** A computation only adds to the trace, and what it adds satisfies [P]. *)
Definition appends {St A} (P : call -> Prop) (m : ST (World St) A) : Prop :=
  forall w, exists l, log (snd (m w)) = log w ++ l /\ Forall P l.

End Model.

(** ** External collaborators

    What the modelled files call but do not define. Every implementation
    sees the clock and the state it may touch, nothing else. *)

Module External.
Import Model.

(** Methods of [conn]. *)
Class ConnOps : Type := {
  conn_write : nat -> conn -> bytes -> eventloop -> unit * eventloop;
  conn_processIO : nat -> conn -> Z -> Z -> Z -> eventloop -> option error * eventloop
}.

(** The user's callbacks. *)
Class UserCode : Type := {
  invoke : nat -> funcval -> conn -> eventloop -> unit * eventloop
}.

(** Methods of [eventloop] defined in other files. *)
Class LoopOps : Type := {
  eventloop_accept : nat -> Z -> Z -> Z -> eventloop -> option error * eventloop;
  eventloop_accept0 : nat -> Z -> Z -> Z -> eventloop -> option error * eventloop;
  eventloop_register : nat -> conn -> eventloop -> option error * eventloop;
  eventloop_closeConns : nat -> eventloop -> unit * eventloop
}.

(** [netpoll.Poller]. [Poller_Polling] runs the handler it is given and the
    queued tasks on the loop, so it works on the loop's whole world. *)
Class Netpoll : Type := {
  OpenPoller : nat -> error + poller;
  Poller_AddRead : nat -> Z -> poller -> option error * poller;
  Poller_Delete : nat -> Z -> poller -> option error * poller;
  Poller_Trigger : nat -> priority -> task -> poller -> option error * poller;
  Poller_UrgentTrigger : nat -> task -> poller -> option error * poller;
  Poller_Close : nat -> poller -> option error * poller;
  Poller_Polling : (Z -> Z -> Z -> ST lworld (option error)) -> ST lworld (option error)
}.

(** Listener creation and the order in which [range] visits a map, which Go
    leaves unspecified: any enumeration of the entries. *)
Class Runtime : Type := {
  initListener : nat -> string -> string -> Options -> error + listener;
  map_range : nat -> gmap Z listener -> list (Z * listener);
  map_range_perm : forall t m, map_range t m ≡ₚ map_to_list m
}.

End External.

(** ** The loop thread: trigger closures, readiness handlers, entry functions *)

Module Loop.
Import Model External ConnIdCodec.

Section WithExternals.
Context {CO : ConnOps} {UC : UserCode} {LO : LoopOps} {NP : Netpoll}.

(** [el.poller.m(...)]: a poller method applied to the loop's poller. *)
Definition on_poller {A} (f : poller -> A * poller) (el : eventloop) : A * eventloop :=
  let '(a, p) := f (el_poller el) in
  (a, mkEventloop (idx el) (el_listeners el) p (buffer el) (connections el)).

(** [el.connections.getConn(fd)] and [el.connections[fd]]. *)
Definition getConn (fd : Z) (el : eventloop) : option conn := connections el !! fd.

(** The closure of [Engine.AsyncWrite] (handle):
<<
  if c := el.connections.getConn(fd); c != nil && c.id == id {
      if !c.opened { return nil }
      c.write(data)
  }
  return nil
>> *)
Definition Engine_AsyncWrite_closure (id fd : Z) (data : bytes) : ST lworld (option error) :=
  let* el := get in
  match getConn fd el with
  | Some c =>
      if bool_decide (conn_id c = id) then
        if negb (conn_opened c) then ret None
        else
          let* _ := ext (CallConnWrite c data) (fun t => conn_write t c data) in
          ret None
      else ret None
  | None => ret None
  end.

(** The closure of [Engine.Trigger] (handle):
<<
  if c := el.connections.getConn(fd); c != nil && c.id == id {
      if c.opened { cb(c) }
  }
  return nil
>> *)
Definition Engine_Trigger_closure (id fd : Z) (cb : funcval) : ST lworld (option error) :=
  let* el := get in
  match getConn fd el with
  | Some c =>
      if bool_decide (conn_id c = id) then
        if conn_opened c then
          let* _ := ext (CallCallback cb c) (fun t => invoke t cb c) in
          ret None
        else ret None
      else ret None
  | None => ret None
  end.

(** The closure of [engine.AsyncWrite] (engine.go):
<<
  if c, ok := el.connections[fd]; ok && c.id == id {
      if !c.opened { return nil }
      c.write(data)
  }
  return nil
>> *)
Definition engine_AsyncWrite_closure (id fd : Z) (data : bytes) : ST lworld (option error) :=
  let* el := get in
  match connections el !! fd with
  | Some c =>
      if bool_decide (conn_id c = id) then
        if negb (conn_opened c) then ret None
        else
          let* _ := ext (CallConnWrite c data) (fun t => conn_write t c data) in
          ret None
      else ret None
  | None => ret None
  end.

(** The closure of [engine.Trigger] (engine.go), with [id == c.id]. *)
Definition engine_Trigger_closure (id fd : Z) (cb : funcval) : ST lworld (option error) :=
  let* el := get in
  match connections el !! fd with
  | Some c =>
      if bool_decide (id = conn_id c) then
        if conn_opened c then
          let* _ := ext (CallCallback cb c) (fun t => invoke t cb c) in
          ret None
        else ret None
      else ret None
  | None => ret None
  end.

(** What the loop does with a dequeued task; [el.register] is defined in
    another file. *)
Definition run_task (t : task) : ST lworld (option error) :=
  match t with
  | TaskAsyncWrite id fd data => Engine_AsyncWrite_closure id fd data
  | TaskTrigger id fd cb => Engine_Trigger_closure id fd cb
  | TaskShutdown => ret (Some ErrEngineShutdown)
  | TaskRegister c => ext (CallLoopRegister c) (fun t => eventloop_register t c)
  end.

(** [rotate]'s handler is [el.accept0]. *)
Definition rotate_handler (fd ev flags : Z) : ST lworld (option error) :=
  ext (CallAccept0 fd ev flags) (fun t => eventloop_accept0 t fd ev flags).

(** [orbit]'s handler:
<<
  c := el.connections.getConn(fd)
  if c == nil { return el.poller.Delete(fd) }
  return c.processIO(fd, ev, flags)
>> *)
Definition orbit_handler (fd ev flags : Z) : ST lworld (option error) :=
  let* el := get in
  match getConn fd el with
  | None => ext (CallPollerDelete fd) (fun t => on_poller (Poller_Delete t fd))
  | Some c => ext (CallProcessIO c fd ev flags) (fun t => conn_processIO t c fd ev flags)
  end.

(** [run]'s handler:
<<
  c := el.connections.getConn(fd)
  if c == nil {
      if _, ok := el.listeners[fd]; ok { return el.accept(fd, ev, flags) }
      return el.poller.Delete(fd)
  }
  return c.processIO(fd, ev, flags)
>> *)
Definition run_handler (fd ev flags : Z) : ST lworld (option error) :=
  let* el := get in
  match getConn fd el with
  | None =>
      match el_listeners el !! fd with
      | Some _ => ext (CallAccept fd ev flags) (fun t => eventloop_accept t fd ev flags)
      | None => ext (CallPollerDelete fd) (fun t => on_poller (Poller_Delete t fd))
      end
  | Some c => ext (CallProcessIO c fd ev flags) (fun t => conn_processIO t c fd ev flags)
  end.

(** [if el.engine.opts.LockOSThread { runtime.LockOSThread(); defer ... }] *)
Definition lock_thread (o : Options) : ST lworld unit :=
  if LockOSThread o then emit CallLockOSThread else ret tt.

Definition deferred_unlock (o : Options) : ST lworld unit :=
  if LockOSThread o then emit CallUnlockOSThread else ret tt.

(** The branch after [Polling] that the three entry functions share:
<<
  if errors.Is(err, errorx.ErrEngineShutdown) { Debugf(...); err = nil }
  else if err != nil { Errorf(...) }
>> *)
Definition classify_exit (err : option error) : ST lworld (option error) :=
  if errors_Is err ErrEngineShutdown then
    let* _ := emit (CallLogger Debugf err) in ret None
  else
    match err with
    | Some _ => let* _ := emit (CallLogger Errorf err) in ret err
    | None => ret err
    end.

(** What that branch returns and what it adds to the trace, and the trace
    of the deferred unlock; used to state the exit behaviour. *)
Definition exit_value (err : option error) : option error :=
  if errors_Is err ErrEngineShutdown then None else err.

Definition exit_trace (err : option error) : list call :=
  if errors_Is err ErrEngineShutdown then [CallLogger Debugf err]
  else match err with
       | Some _ => [CallLogger Errorf err]
       | None => []
       end.

Definition unlock_trace (o : Options) : list call :=
  if LockOSThread o then [CallUnlockOSThread] else [].

(** The world in which [Polling] is entered: after the optional thread
    lock. *)
Definition entered (o : Options) (w : lworld) : lworld :=
  snd (emit CallPolling (snd (lock_thread o w))).

(** [(el *eventloop) rotate()]; [o] is [el.engine.opts]. *)
Definition rotate (o : Options) : ST lworld (option error) :=
  let* _ := lock_thread o in
  let* _ := emit CallPolling in
  let* err := Poller_Polling rotate_handler in
  let* err := classify_exit err in
  let* _ := emit (CallEngineShutdown err) in
  let* _ := deferred_unlock o in
  ret err.

(** [(el *eventloop) orbit()] *)
Definition orbit (o : Options) : ST lworld (option error) :=
  let* _ := lock_thread o in
  let* _ := emit CallPolling in
  let* err := Poller_Polling orbit_handler in
  let* err := classify_exit err in
  let* _ := ext CallCloseConns eventloop_closeConns in
  let* _ := emit (CallEngineShutdown err) in
  let* _ := deferred_unlock o in
  ret err.

(** [(el *eventloop) run()] *)
Definition run (o : Options) : ST lworld (option error) :=
  let* _ := lock_thread o in
  let* _ := emit CallPolling in
  let* err := Poller_Polling run_handler in
  let* err := classify_exit err in
  let* _ := ext CallCloseConns eventloop_closeConns in
  let* _ := emit (CallEngineShutdown err) in
  let* _ := deferred_unlock o in
  ret err.

End WithExternals.
End Loop.

(** ** The engine: load balancer access, the handle, start and stop *)

Module Eng.
Import Model External ConnIdCodec Loop.

Section WithExternals.
Context {NP : Netpoll} {RT : Runtime}.

Definition set_lb (l : list eventloop) (e : engine) : engine :=
  mkEngine (listeners e) l (opts e) (mainLoop e) (inShutdown e).

Definition set_listeners (m : gmap Z listener) (e : engine) : engine :=
  mkEngine m (lb e) (opts e) (mainLoop e) (inShutdown e).

Definition set_mainLoop (m : option eventloop) (e : engine) : engine :=
  mkEngine (listeners e) (lb e) (opts e) m (inShutdown e).

Definition set_inShutdown (v : Z) (e : engine) : engine :=
  mkEngine (listeners e) (lb e) (opts e) (mainLoop e) v.

(** Code written against [el *eventloop], run on the [i]-th registered
    loop; the loop shares the clock and the trace of the engine. *)
Definition at_loop {A} (i : nat) (d : A) (m : ST lworld A) : ST eworld A :=
  fun w =>
    match lb (st w) !! i with
    | Some el =>
        let '(a, w') := m (mkWorld el (tick w) (log w)) in
        (a, mkWorld (set_lb (<[i := st w']> (lb (st w))) (st w)) (tick w') (log w'))
    | None => (d, w)
    end.

(** The same on [eng.mainLoop]. *)
Definition at_mainLoop {A} (d : A) (m : ST lworld A) : ST eworld A :=
  fun w =>
    match mainLoop (st w) with
    | Some el =>
        let '(a, w') := m (mkWorld el (tick w) (log w)) in
        (a, mkWorld (set_mainLoop (Some (st w')) (st w)) (tick w') (log w'))
    | None => (d, w)
    end.

Fixpoint iterate_from (n i : nat) (fn : Z -> ST lworld bool) : ST eworld unit :=
  match n with
  | O => ret tt
  | S n' =>
      let* continue := at_loop i false (fn (Z.of_nat i)) in
      if continue then iterate_from n' (S i) fn else ret tt
  end.

(** Modelled from the spec: [loadBalancer.iterate] is defined in another
    file; section 4.3: "[iterate(fn)] calls [fn(idx, loop)] in [idx] order
    until [fn] returns false". *)
Definition iterate (fn : Z -> ST lworld bool) : ST eworld unit :=
  let* e := get in
  iterate_from (length (lb e)) 0 fn.

(** Modelled from the spec: [loadBalancer.register] is defined in another
    file; section 4.3: "[register(loop)] is called exactly once per loop
    during setup, assigning [loop.idx = len(loops)-1]" (the length after the
    loop is appended). *)
Definition register (el : eventloop) : ST eworld nat :=
  let* e := get in
  let i := length (lb e) in
  let el' := mkEventloop (Z.of_nat i) (el_listeners el) (el_poller el)
                         (buffer el) (connections el) in
  let* _ := emit (CallRegister (Z.of_nat i)) in
  let* _ := put (set_lb (lb e ++ [el']) e) in
  ret i.

(** *** The handle: [Engine.AsyncWrite], [Engine.Trigger] *)

(** [(e Engine) AsyncWrite(connId int64, data []byte) error] *)
Definition Engine_AsyncWrite (e : Engine) (connId : Z) (data : bytes)
  : ST eworld (option error) :=
  match eng e with
  | nil_engine => ret (Some ErrEmptyEngine)
  | this_engine =>
      let elidx := decode_elidx connId in
      let id := decode_id connId in
      let fd := decode_fd connId in
      let* _ := iterate (fun i =>
        if bool_decide (i = elidx) then
          let* _ := ext (CallTrigger i HighPriority (TaskAsyncWrite id fd data))
                        (fun t => on_poller
                           (Poller_Trigger t HighPriority (TaskAsyncWrite id fd data))) in
          ret false
        else ret true) in
      ret None
  end.

(** [(e Engine) Trigger(connId int64, cb func(c Conn))]; a nil [cb] is
    [None]. *)
Definition Engine_Trigger (e : Engine) (connId : Z) (cb : option funcval)
  : ST eworld unit :=
  match eng e with
  | nil_engine => ret tt
  | this_engine =>
      match cb with
      | None => ret tt
      | Some cb =>
          let elidx := decode_elidx connId in
          let id := decode_id connId in
          let fd := decode_fd connId in
          iterate (fun i =>
            if bool_decide (i = elidx) then
              let* _ := ext (CallTrigger i HighPriority (TaskTrigger id fd cb))
                            (fun t => on_poller
                               (Poller_Trigger t HighPriority (TaskTrigger id fd cb))) in
              ret false
            else ret true)
      end
  end.

(** *** Starting the loops *)

(** [eng.startEventLoops()]: per loop, [wg.Add(1)] and a goroutine that
    runs [el.run] and then [wg.Done()]. *)
Definition startEventLoops : ST eworld unit :=
  iterate (fun i =>
    let* _ := emit CallWgAdd in
    let* _ := emit (CallGo (GoRun i)) in
    ret true).

Definition startSubReactors : ST eworld unit :=
  iterate (fun i =>
    let* _ := emit CallWgAdd in
    let* _ := emit (CallGo (GoSubReactor i)) in
    ret true).

(** [eng.closeEventLoops()]: [_ = el.poller.Close()] on every loop. *)
Definition closeEventLoops : ST eworld unit :=
  iterate (fun i =>
    let* _ := ext (CallPollerClose i) (fun t => on_poller (Poller_Close t)) in
    ret true).

(** [make([]byte, n)] *)
Definition make_bytes (n : Z) : bytes := replicate (Z.to_nat n) Byte.x00.

(** In [activateEventLoops], for [i > 0]:
<<
  for _, ln := range listeners {
      if ln, err = initListener(ln.network, ln.address, eng.opts); err != nil { return }
      ls[ln.fd] = ln
  }
>> *)
Fixpoint rebind_listeners (o : Options) (visit : list (Z * listener))
    (ls : gmap Z listener) : ST eworld (error + gmap Z listener) :=
  match visit with
  | [] => ret (inr ls)
  | (_, ln) :: rest =>
      let* r := ext_pure (CallInitListener (ln_network ln) (ln_address ln))
                  (fun t => initListener t (ln_network ln) (ln_address ln) o) in
      match r with
      | inl err => ret (inl err)
      | inr ln' => rebind_listeners o rest (<[ln_fd ln' := ln']> ls)
      end
  end.

(** [for _, ln := range listeners { if err = el.poller.AddRead(...); err != nil { return } }]
    on the loop [el] under construction. *)
Fixpoint addRead_listeners (visit : list (Z * listener)) (el : eventloop)
  : ST eworld (option error * eventloop) :=
  match visit with
  | [] => ret (None, el)
  | (_, ln) :: rest =>
      let* r := ext_pure (CallAddRead (ln_fd ln))
                  (fun t => on_poller (Poller_AddRead t (ln_fd ln)) el) in
      match r with
      | (Some err, el') => ret (Some err, el')
      | (None, el') => addRead_listeners rest el'
      end
  end.

(** The [range] of a map: the order is the runtime's. *)
Definition range (m : gmap Z listener) : ST eworld (list (Z * listener)) :=
  fun w => (map_range (tick w) m, mkWorld (st w) (S (tick w)) (log w)).

(** The body of the [for i := 0; i < numEventLoop; i++] loop of
    [activateEventLoops], [n] iterations from [i] on. The result is
    [inl err] for an early [return] (every one of them follows an
    [err != nil]) and [inr striker] at the loop's end. *)
Fixpoint activateEventLoops_for (n : nat) (i : Z) (lns : gmap Z listener)
    (striker : option loopref) : ST eworld (error + option loopref) :=
  match n with
  | O => ret (inr striker)
  | S n' =>
      let* e := get in
      let* r :=
        (if bool_decide (0 < i) then
           let* visit := range lns in
           rebind_listeners (opts e) visit ∅
         else ret (inr lns)) in
      match r with
      | inl err => ret (inl err)
      | inr lns =>
          let* p := ext_pure CallOpenPoller OpenPoller in
          match p with
          | inr p =>
              let el := mkEventloop 0 lns p (make_bytes (ReadBufferCap (opts e))) ∅ in
              let* visit := range lns in
              let* r := addRead_listeners visit el in
              match r with
              | (Some err, _) => ret (inl err)
              | (None, el) =>
                  let* k := register el in
                  let striker :=
                    if bool_decide (Z.of_nat k = 0) && Ticker (opts e)
                    then Some (Worker k) else striker in
                  activateEventLoops_for n' (i + 1) lns striker
              end
          | inl err => ret (inl err)
          end
      end
  end.

(** [(eng *engine) activateEventLoops(numEventLoop int) (err error)] *)
Definition activateEventLoops (numEventLoop : Z) : ST eworld (option error) :=
  let* e := get in
  let lns := listeners e in
  let* _ := put (set_listeners ∅ e) in
  let* r := activateEventLoops_for (Z.to_nat numEventLoop) 0 lns None in
  match r with
  | inl err => ret (Some err)
  | inr striker =>
      let* _ := startEventLoops in
      let* _ := emit (CallGo (GoTicker striker)) in
      ret None
  end.

(** The [for] loop of [activateReactors]: [Some err] is the early
    [return err]. *)
Fixpoint activateReactors_for (n : nat) : ST eworld (option error) :=
  match n with
  | O => ret None
  | S n' =>
      let* p := ext_pure CallOpenPoller OpenPoller in
      match p with
      | inr p =>
          let* e := get in
          let el := mkEventloop 0 (listeners e) p (make_bytes (ReadBufferCap (opts e))) ∅ in
          let* _ := register el in
          activateReactors_for n'
      | inl err => ret (Some err)
      end
  end.

(** [(eng *engine) activateReactors(numEventLoop int) error] *)
Definition activateReactors (numEventLoop : Z) : ST eworld (option error) :=
  let* r := activateReactors_for (Z.to_nat numEventLoop) in
  match r with
  | Some err => ret (Some err)
  | None =>
      let* _ := startSubReactors in
      let* p := ext_pure CallOpenPoller OpenPoller in
      match p with
      | inr p =>
          let* e := get in
          let el := mkEventloop (-1) (listeners e) p [] ∅ in
          let* visit := range (listeners e) in
          let* r := addRead_listeners visit el in
          match r with
          | (Some err, _) => ret (Some err)
          | (None, el) =>
              let* e := get in
              let* _ := put (set_mainLoop (Some el) e) in
              let* _ := emit CallWgAdd in
              let* _ := emit (CallGo GoMainReactor) in
              let* e := get in
              let* _ := (if Ticker (opts e)
                         then emit (CallGo (GoTicker (Some MainLoop)))
                         else ret tt) in
              ret None
          end
      | inl err => ret (Some err)
      end
  end.

(** [network := ""; for _, ln := range eng.listeners { network = ln.network; break }]
    over the entries in the order [range] visits them. *)
Definition first_network (visit : list (Z * listener)) : string :=
  match visit with
  | [] => ""
  | (_, ln) :: _ => ln_network ln
  end.

(** The world after one [range]: the clock has advanced. *)
Definition ranged (w : eworld) : eworld := mkWorld (st w) (S (tick w)) (log w).

(** [(eng *engine) start(numEventLoop int) error]:
<<
  network := ""
  for _, ln := range eng.listeners { network = ln.network; break }
  if eng.opts.ReusePort || network == "udp" { return eng.activateEventLoops(numEventLoop) }
  return eng.activateReactors(numEventLoop)
>> *)
Definition start (numEventLoop : Z) : ST eworld (option error) :=
  let* e := get in
  let* visit := range (listeners e) in
  let network := first_network visit in
  if ReusePort (opts e) || bool_decide (network = "udp")
  then activateEventLoops numEventLoop
  else activateReactors numEventLoop.

(** *** Stopping *)

(** [err := p.UrgentTrigger(func(_) error { return ErrEngineShutdown }, nil);
     if err != nil { Logger.Errorf(...) }] on the current loop. *)
Definition trigger_shutdown : ST lworld unit :=
  let* el := get in
  let* err := ext (CallUrgentTrigger (idx el) TaskShutdown)
                  (fun t => on_poller (Poller_UrgentTrigger t TaskShutdown)) in
  match err with
  | Some _ => emit (CallLogger Errorf err)
  | None => ret tt
  end.

(** [atomic.StoreInt32(&eng.inShutdown, v)] *)
Definition atomic_StoreInt32_inShutdown (v : Z) : ST eworld unit :=
  fun w => (tt, mkWorld (set_inShutdown v (st w)) (tick w)
                        (log w ++ [CallStoreInShutdown v])).

(** [atomic.LoadInt32(&eng.inShutdown) == 1] *)
Definition isInShutdown (e : engine) : bool := bool_decide (inShutdown e = 1).

(** [(eng *engine) stop(s Engine)] *)
Definition stop (s : Engine) : ST eworld unit :=
  let* _ := emit CallWaitForShutdown in
  let* _ := emit CallOnShutdown in
  let* _ := iterate (fun _ => let* _ := trigger_shutdown in ret true) in
  let* e := get in
  let* _ := (match mainLoop e with
             | Some _ =>
                 let* _ := emit CallCloseAllListeners in
                 at_mainLoop tt trigger_shutdown
             | None => ret tt
             end) in
  let* _ := emit CallWgWait in
  let* _ := closeEventLoops in
  let* e := get in
  let* _ := (match mainLoop e with
             | Some _ =>
                 at_mainLoop tt
                   (let* err := ext (CallPollerClose (-1))
                                    (fun t => on_poller (Poller_Close t)) in
                    match err with
                    | Some _ => emit (CallLogger Errorf err)
                    | None => ret tt
                    end)
             | None => ret tt
             end) in
  let* e := get in
  let* _ := (if Ticker (opts e) then emit CallCancelTicker else ret tt) in
  atomic_StoreInt32_inShutdown 1.

(** The statements of [stop] before [eng.wg.Wait()] and those between it
    and the final store, as blocks; [stop] is their sequence
    ([StopFacts.stop_blocks]). *)
Definition stop_notify : ST eworld unit :=
  let* _ := emit CallWaitForShutdown in
  let* _ := emit CallOnShutdown in
  let* _ := iterate (fun _ => let* _ := trigger_shutdown in ret true) in
  let* e := get in
  match mainLoop e with
  | Some _ =>
      let* _ := emit CallCloseAllListeners in
      at_mainLoop tt trigger_shutdown
  | None => ret tt
  end.

Definition close_mainLoop : ST eworld unit :=
  let* e := get in
  match mainLoop e with
  | Some _ =>
      at_mainLoop tt
        (let* err := ext (CallPollerClose (-1))
                         (fun t => on_poller (Poller_Close t)) in
         match err with
         | Some _ => emit (CallLogger Errorf err)
         | None => ret tt
         end)
  | None => ret tt
  end.

Definition stop_close : ST eworld unit :=
  let* _ := closeEventLoops in
  let* _ := close_mainLoop in
  let* e := get in
  if Ticker (opts e) then emit CallCancelTicker else ret tt.

End WithExternals.

(** The calls [stop] makes before the join, and between the join and the
    store. *)
Definition before_join (c : call) : Prop :=
  match c with
  | CallWaitForShutdown | CallOnShutdown | CallUrgentTrigger _ _
  | CallLogger _ _ | CallCloseAllListeners => True
  | _ => False
  end.

Definition after_join (c : call) : Prop :=
  match c with
  | CallPollerClose _ | CallLogger _ _ | CallCancelTicker => True
  | _ => False
  end.

(** What no step of [stop] before the store changes: the number of loops,
    the options, and whether there is a main loop. *)
Definition same_frame (e e' : engine) : Prop :=
  length (lb e') = length (lb e)
  /\ opts e' = opts e
  /\ (is_Some (mainLoop e') <-> is_Some (mainLoop e)).

Definition keeps {A} (m : ST eworld A) : Prop :=
  forall w, same_frame (st w) (st (snd (m w))).

End Eng.

(** ** The main reactor's accept of the [server] type *)

Module Server.
Import Model External Loop.

Record server : Type := mkServer {
  lns : list listener;
  svr_lb : list eventloop;
  svr_opts : Options
}.

Abbreviation sworld := (World server).

(** A Go call returns or panics. *)
Inductive outcome (A : Type) : Type :=
| Returned (a : A)
| Panicked.
Arguments Returned {A} _.
Arguments Panicked {A}.

(** The system calls and helpers [accept] uses. [lb_next] is the load
    balancer's choice, the position of the chosen loop. *)
Class Syscalls : Type := {
  unix_Accept : nat -> Z -> error + Z * string;
  unix_SetNonblock : nat -> Z -> option error;
  socket_SetKeepAlive : nat -> Z -> Z -> option error;
  lb_next : nat -> string -> list eventloop -> nat;
  newTCPConn : nat -> Z -> nat -> string -> conn
}.

Section WithExternals.
Context {NP : Netpoll} {SC : Syscalls}.

Definition time_Second : Z := 1000000000.

(** [el.poller.UrgentTrigger(el.register, c)] on the [i]-th loop; no such
    loop is a nil dereference. *)
Definition register_on (i : nat) (c : conn) : ST sworld (outcome (option error)) :=
  fun w =>
    match svr_lb (st w) !! i with
    | Some el =>
        let '(r, el') := on_poller (Poller_UrgentTrigger (tick w) (TaskRegister c)) el in
        (Returned r,
         mkWorld (mkServer (lns (st w)) (<[i := el']> (svr_lb (st w))) (svr_opts (st w)))
                 (S (tick w)) (log w ++ [CallRegisterTrigger i c r]))
    | None => (Panicked, w)
    end.

(** The body of [if fd == ln.fd { ... }] in [server.accept]. *)
Definition accept_on (ln : listener) (fd : Z) : ST sworld (outcome (option error)) :=
  let* a := ext_res (CallUnixAccept fd) (fun t s => (unix_Accept t fd, s)) in
  match a with
  | inl err =>
      if bool_decide (err = EAGAIN) then ret (Returned None)
      else
        let* _ := emit (CallLogger Errorf (Some err)) in
        ret (Returned (Some ErrAcceptSocket))
  | inr (nfd, sa) =>
      let* nb := ext_res (CallSetNonblock nfd) (fun t s => (unix_SetNonblock t nfd, s)) in
      match NewSyscallError "fcntl nonblock" nb with
      | Some err => ret (Returned (Some err))
      | None =>
          let remoteAddr := sa in
          let* s := get in
          let* _ :=
            (if bool_decide (0 < TCPKeepAlive (svr_opts s))
                && bool_decide (ln_network ln = "tcp")
             then
               let secs := Z.quot (TCPKeepAlive (svr_opts s)) time_Second in
               let* err := ext_res (CallSetKeepAlive nfd secs)
                             (fun t s => (socket_SetKeepAlive t nfd secs, s)) in
               emit (CallLoggingError err)
             else ret tt) in
          let* i := ext_res (CallLbNext remoteAddr)
                      (fun t s => (lb_next t remoteAddr (svr_lb s), s)) in
          let* c := ext_res (CallNewTCPConn nfd i)
                      (fun t s => (newTCPConn t nfd i sa, s)) in
          let* r := register_on i c in
          match r with
          | Panicked => ret Panicked
          | Returned (Some _) =>
              let* _ := emit (CallUnixClose nfd) in
              let* _ := emit (CallReleaseTCP c) in
              ret (Returned None)
          | Returned None => ret (Returned None)
          end
      end
  end.

(** [for _, ln := range svr.lns { if fd == ln.fd { ... } }; return nil] *)
Fixpoint accept_range (l : list listener) (fd : Z) : ST sworld (outcome (option error)) :=
  match l with
  | [] => ret (Returned None)
  | ln :: rest =>
      if bool_decide (fd = ln_fd ln) then accept_on ln fd
      else accept_range rest fd
  end.

(** [(svr *server) accept(fd int, _ int, _ netpoll.IOEvent) error] *)
Definition accept (fd : Z) : ST sworld (outcome (option error)) :=
  let* s := get in
  accept_range (lns s) fd.

End WithExternals.
End Server.

(** ** Concrete collaborators

    Simple implementations of the external interfaces, and small worlds, on
    which the model is run. *)

Module Concrete.
Import Model External Loop Eng Server.

Definition empty_poller : poller := mkPoller [] [] ∅ false.

(** [c.write(data)] appends to the connection's outbound buffer. *)
#[local] Instance buffering_conn : ConnOps := {|
  conn_write := fun _ c data el =>
    (tt, mkEventloop (idx el) (el_listeners el) (el_poller el) (buffer el)
           (<[conn_fd c := mkConn (conn_fd c) (conn_id c) (conn_opened c)
                                  (conn_outbound c ++ data)]> (connections el)));
  conn_processIO := fun _ _ _ _ _ el => (None, el)
|}.

#[local] Instance idle_user : UserCode := {|
  invoke := fun _ _ _ el => (tt, el)
|}.

#[local] Instance plain_loop : LoopOps := {|
  eventloop_accept := fun _ _ _ _ el => (None, el);
  eventloop_accept0 := fun _ _ _ _ el => (None, el);
  eventloop_register := fun _ c el =>
    (None, mkEventloop (idx el) (el_listeners el) (el_poller el) (buffer el)
             (<[conn_fd c := c]> (connections el)));
  eventloop_closeConns := fun _ el =>
    (tt, mkEventloop (idx el) (el_listeners el) (el_poller el) (buffer el) ∅)
|}.

Definition enqueue_urgent (t : task) (p : poller) : poller :=
  mkPoller (urgentAsyncTaskQueue p ++ [t]) (asyncTaskQueue p) (interest p) (poller_closed p).

Definition enqueue (pri : priority) (t : task) (p : poller) : poller :=
  mkPoller (urgentAsyncTaskQueue p) (asyncTaskQueue p ++ [(pri, t)]) (interest p)
           (poller_closed p).

(** A poller whose calls succeed; [polling] sees one readiness event, for
    [ready], and then unwinds with [exit]. *)
Definition queue_poller (ready : Z) (exit : option error) : Netpoll := {|
  OpenPoller := fun _ => inr empty_poller;
  Poller_AddRead := fun _ fd p =>
    (None, mkPoller (urgentAsyncTaskQueue p) (asyncTaskQueue p) ({[fd]} ∪ interest p)
                    (poller_closed p));
  Poller_Delete := fun _ fd p =>
    (None, mkPoller (urgentAsyncTaskQueue p) (asyncTaskQueue p) (interest p ∖ {[fd]})
                    (poller_closed p));
  Poller_Trigger := fun _ pri t p => (None, enqueue pri t p);
  Poller_UrgentTrigger := fun _ t p => (None, enqueue_urgent t p);
  Poller_Close := fun _ p =>
    (None, mkPoller (urgentAsyncTaskQueue p) (asyncTaskQueue p) (interest p) true);
  Poller_Polling := fun handler => let* _ := handler ready 1 0 in ret exit
|}.

(** A poller that refuses every trigger (its wake-up descriptor is gone). *)
Definition EBADF : error := Errno 9.

Definition refusing_poller : Netpoll := {|
  OpenPoller := fun _ => inr empty_poller;
  Poller_AddRead := fun _ _ p => (Some EBADF, p);
  Poller_Delete := fun _ _ p => (Some EBADF, p);
  Poller_Trigger := fun _ _ _ p => (Some EBADF, p);
  Poller_UrgentTrigger := fun _ _ p => (Some EBADF, p);
  Poller_Close := fun _ p => (Some EBADF, p);
  Poller_Polling := fun _ => ret (Some EBADF)
|}.

(** Listeners re-bound at clock [t] get descriptor [100 + t]; [range]
    visits a map in the order of [map_to_list]. *)
Program Definition listed_runtime : Runtime := {|
  initListener := fun t network address _ =>
    inr (mkListener (100 + Z.of_nat t) network address);
  map_range := fun _ m => map_to_list m
|}.
Next Obligation. reflexivity. Qed.

(** The same with the reverse visiting order. *)
Program Definition reversed_runtime : Runtime := {|
  initListener := fun t network address _ =>
    inr (mkListener (100 + Z.of_nat t) network address);
  map_range := fun _ m => reverse (map_to_list m)
|}.
Next Obligation. intros. apply reverse_Permutation. Qed.

Definition peer_syscalls : Syscalls := {|
  unix_Accept := fun _ _ => inr (50, "10.0.0.9:4242");
  unix_SetNonblock := fun _ _ => None;
  socket_SetKeepAlive := fun _ _ _ => None;
  lb_next := fun _ _ _ => 0%nat;
  newTCPConn := fun _ nfd _ _ => mkConn nfd 1 false []
|}.

Definition no_options : Options := mkOptions false false false 16 0.

Definition tcp_listener : listener := mkListener 3 "tcp" "127.0.0.1:9000".
Definition udp_listener : listener := mkListener 4 "udp" "127.0.0.1:9001".

(** A worker loop that listens on fd 3 and owns one open connection: fd 7,
    generation 3. *)
Definition loop_with_conn : eventloop :=
  mkEventloop 0 {[3 := tcp_listener]} empty_poller []
              {[7 := mkConn 7 3 true []]}.

(** The same loop after that connection was closed and fd 7 was handed out
    again, to a connection of generation 4. *)
Definition loop_fd_reused : eventloop :=
  mkEventloop 0 {[3 := tcp_listener]} empty_poller []
              {[7 := mkConn 7 4 true []]}.

Definition world_of {St} (s : St) : World St := mkWorld s 0 [].

Definition engine_of (o : Options) (m : gmap Z listener) (loops : list eventloop) : engine :=
  mkEngine m loops o None 0.

(** Two listeners of different networks, and an engine on them without
    [ReusePort]. *)
Definition mixed_listeners : gmap Z listener :=
  {[3 := tcp_listener; 4 := udp_listener]}.

Definition mixed_engine : engine := engine_of no_options mixed_listeners [].

(** An engine in reuseport mode with the ticker disabled. *)
Definition reuseport_options : Options := mkOptions true false false 16 0.

Definition reuseport_engine : engine :=
  engine_of reuseport_options {[3 := tcp_listener]} [].

End Concrete.

(** ** Frames and trace shapes

    What a function leaves alone and the shape of the trace it adds, used
    to state the properties of the engine and of the server; and some more
    concrete collaborators. *)

Module HandleFrame.
Import Model External Loop Eng.

(** Between engines [e] and [e']: nothing but the poller of the loop at
    position [k] may differ. *)
Definition only_poller_changed (k : Z) (e e' : engine) : Prop :=
  listeners e' = listeners e /\ opts e' = opts e
  /\ mainLoop e' = mainLoop e /\ inShutdown e' = inShutdown e
  /\ length (lb e') = length (lb e)
  /\ forall j el, lb e !! j = Some el ->
       exists el', lb e' !! j = Some el'
         /\ idx el' = idx el /\ el_listeners el' = el_listeners el
         /\ buffer el' = buffer el /\ connections el' = connections el
         /\ (Z.of_nat j <> k -> el' = el).

(** An engine with two worker loops, the second one owning a connection. *)
Definition two_loop_engine : engine :=
  mkEngine ∅ [mkEventloop 0 ∅ Concrete.empty_poller [] ∅;
              mkEventloop 1 ∅ Concrete.empty_poller [] {[7 := mkConn 7 3 true []]}]
           Concrete.no_options None 0.

End HandleFrame.

Module StartTrace.
Import Model External Loop Eng.

(** A listener map whose keys are the descriptors of its listeners. *)
Definition keyed_by_fd (m : gmap Z listener) : Prop :=
  forall fd ln, m !! fd = Some ln -> ln_fd ln = fd.

(** The trace of starting [n] loops: [wg.Add(1)] and a goroutine each. *)
Definition spawned (g : Z -> goroutine) (first n : nat) : list call :=
  flat_map (fun j => [CallWgAdd; CallGo (g (Z.of_nat j))]) (seq first n).

(** The trace of starting the main reactor and, with [ticker] set, the
    ticker on the main loop. *)
Definition main_started (ticker : bool) : list call :=
  [CallWgAdd; CallGo GoMainReactor]
  ++ (if ticker then [CallGo (GoTicker (Some MainLoop))] else []).

Definition not_go (c : call) : Prop :=
  match c with
  | CallGo _ => False
  | _ => True
  end.

(** What [activateEventLoops] and [activateReactors] make of the loops they
    register from position [base] on: dense indices, no connections yet. *)
Definition fresh_workers (base : nat) (new : list eventloop) : Prop :=
  forall j el, new !! j = Some el ->
    idx el = Z.of_nat (base + j) /\ connections el = ∅.

(** A poller layer on which no poller can be opened. *)
Definition closed_netpoll : Netpoll := {|
  OpenPoller := fun _ => inl Concrete.EBADF;
  Poller_AddRead := fun _ _ p => (None, p);
  Poller_Delete := fun _ _ p => (None, p);
  Poller_Trigger := fun _ _ _ p => (None, p);
  Poller_UrgentTrigger := fun _ _ p => (None, p);
  Poller_Close := fun _ p => (None, p);
  Poller_Polling := fun _ => ret (Some Concrete.EBADF)
|}.

(** A poller layer that opens pollers while the clock is below [k] and
    fails with EBADF from then on. *)
Definition exhausted_netpoll (k : nat) : Netpoll := {|
  OpenPoller := fun t => if (t <? k)%nat then inr Concrete.empty_poller
                         else inl Concrete.EBADF;
  Poller_AddRead := fun _ fd p =>
    (None, mkPoller (urgentAsyncTaskQueue p) (asyncTaskQueue p) ({[fd]} ∪ interest p)
                    (poller_closed p));
  Poller_Delete := fun _ _ p => (None, p);
  Poller_Trigger := fun _ _ _ p => (None, p);
  Poller_UrgentTrigger := fun _ _ p => (None, p);
  Poller_Close := fun _ p => (None, p);
  Poller_Polling := fun _ => ret (Some Concrete.EBADF)
|}.

(** An engine on one tcp listener, without [ReusePort]. *)
Definition reactor_engine : engine :=
  Concrete.engine_of Concrete.no_options {[3 := Concrete.tcp_listener]} [].

End StartTrace.

Module PollerFrame.
Import Model External Loop Eng.

Section WithExternals.
Context {NP : Netpoll}.

(** The trace of sending the shutdown closure to [loops] one after the
    other from clock [t] on: an urgent trigger each, and an error log entry
    after each trigger that failed. *)
Fixpoint shutdown_trace (t : nat) (loops : list eventloop) : list call :=
  match loops with
  | [] => []
  | el :: rest =>
      CallUrgentTrigger (idx el) TaskShutdown
      :: match fst (Poller_UrgentTrigger t TaskShutdown (el_poller el)) with
         | Some e => [CallLogger Errorf (Some e)]
         | None => []
         end
      ++ shutdown_trace (S t) rest
  end.

End WithExternals.

(** Two loops that differ in their pollers at most. *)
Definition same_but_poller (el el' : eventloop) : Prop :=
  idx el' = idx el /\ el_listeners el' = el_listeners el
  /\ buffer el' = buffer el /\ connections el' = connections el.




End PollerFrame.

Module ConcreteAccept.
Import Model External Loop Eng Server Concrete.

(** A kernel that accepts a peer and then fails to make its descriptor
    non-blocking. *)
Definition blocking_syscalls : Syscalls := {|
  unix_Accept := fun _ _ => inr (50, "10.0.0.9:4242");
  unix_SetNonblock := fun _ _ => Some EBADF;
  socket_SetKeepAlive := fun _ _ _ => None;
  lb_next := fun _ _ _ => 0%nat;
  newTCPConn := fun _ nfd _ _ => mkConn nfd 1 false []
|}.


End ConcreteAccept.

(** * Part II: properties *)

(** ** Machine integers and the ConnId codec *)

Module CodecFacts.
Import MachineInt ConnIdCodec.

Lemma wrap64_range z : in_int64 (wrap64 z).
Proof.
  unfold in_int64, wrap64.
  pose proof (Z.mod_pos_bound (z + 2 ^ 63) (2 ^ 64) ltac:(lia)). lia.
Qed.




Lemma pack_range loopIdx id fd : in_int64 (pack loopIdx id fd).
Proof. apply wrap64_range. Qed.








End CodecFacts.

(** ** The trigger closures *)

Module ClosureFacts.
Import Model External ConnIdCodec Loop.

Ltac step_monad :=
  unfold bind, ret, get, put, emit, ext, ext_pure, ext_res; simpl.

Section WithExternals.
Context {CO : ConnOps} {UC : UserCode} {LO : LoopOps} {NP : Netpoll}.

(** The two versions of each closure ([getConn(fd)] and [connections[fd]])
    are the same function. *)
Lemma engine_AsyncWrite_closure_eq id fd data w :
  engine_AsyncWrite_closure id fd data w = Engine_AsyncWrite_closure id fd data w.
Proof. reflexivity. Qed.

Lemma engine_Trigger_closure_eq id fd cb w :
  engine_Trigger_closure id fd cb w = Engine_Trigger_closure id fd cb w.
Proof.
  unfold engine_Trigger_closure, Engine_Trigger_closure, getConn. step_monad.
  destruct (connections (st w) !! fd) as [c|]; [|reflexivity].
  destruct (decide (id = conn_id c)) as [->|Hne].
  - rewrite !bool_decide_eq_true_2 by reflexivity. reflexivity.
  - rewrite !bool_decide_eq_false_2 by congruence. reflexivity.
Qed.

Lemma AsyncWrite_closure_live id fd data w c :
  connections (st w) !! fd = Some c -> conn_id c = id -> conn_opened c = true ->
  Engine_AsyncWrite_closure id fd data w =
  (None, mkWorld (snd (conn_write (tick w) c data (st w))) (S (tick w))
                 (log w ++ [CallConnWrite c data])).
Proof.
  intros Hc Hid Hop. unfold Engine_AsyncWrite_closure, getConn. step_monad.
  rewrite Hc, bool_decide_eq_true_2, Hop by assumption. simpl.
  destruct (conn_write (tick w) c data (st w)). reflexivity.
Qed.

Lemma Trigger_closure_live id fd cb w c :
  connections (st w) !! fd = Some c -> conn_id c = id -> conn_opened c = true ->
  Engine_Trigger_closure id fd cb w =
  (None, mkWorld (snd (invoke (tick w) cb c (st w))) (S (tick w))
                 (log w ++ [CallCallback cb c])).
Proof.
  intros Hc Hid Hop. unfold Engine_Trigger_closure, getConn. step_monad.
  rewrite Hc, bool_decide_eq_true_2, Hop by assumption.
  destruct (invoke (tick w) cb c (st w)). reflexivity.
Qed.

Lemma AsyncWrite_closure_stale id fd data w :
  ~ (exists c, connections (st w) !! fd = Some c /\ conn_id c = id /\ conn_opened c = true) ->
  Engine_AsyncWrite_closure id fd data w = (None, w).
Proof.
  intros Hno. unfold Engine_AsyncWrite_closure, getConn. step_monad.
  destruct (connections (st w) !! fd) as [c|] eqn:Hc; [|reflexivity].
  destruct (decide (conn_id c = id)) as [Hid|Hne].
  - rewrite bool_decide_eq_true_2 by assumption.
    destruct (conn_opened c) eqn:Hop; [|reflexivity].
    exfalso. apply Hno. exists c. auto.
  - rewrite bool_decide_eq_false_2 by assumption. reflexivity.
Qed.

Lemma Trigger_closure_stale id fd cb w :
  ~ (exists c, connections (st w) !! fd = Some c /\ conn_id c = id /\ conn_opened c = true) ->
  Engine_Trigger_closure id fd cb w = (None, w).
Proof.
  intros Hno. unfold Engine_Trigger_closure, getConn. step_monad.
  destruct (connections (st w) !! fd) as [c|] eqn:Hc; [|reflexivity].
  destruct (decide (conn_id c = id)) as [Hid|Hne].
  - rewrite bool_decide_eq_true_2 by assumption.
    destruct (conn_opened c) eqn:Hop; [|reflexivity].
    exfalso. apply Hno. exists c. auto.
  - rewrite bool_decide_eq_false_2 by assumption. reflexivity.
Qed.

(** C1. For every connId and every state of the loop, the closure that
    [AsyncWrite] (resp. [Trigger]) enqueues calls [c.write(data)] (resp.
    [cb(c)]) exactly when the loop's connections map holds, at the decoded
    fd, a connection whose generation id is the decoded 16-bit id and whose
    [opened] flag is set; in every other case (no such fd, another id, not
    opened) it returns nil and the loop, the clock and the trace are what
    they were. In particular an fd that was handed out again to a connection
    with another id makes the old ConnId a silent no-op. This holds for the
    closures of the handle and for those of [engine.go]. *)
Theorem stale_connid_is_noop (connId : Z) (data : bytes) (cb : funcval) (w : lworld) :
  let id := decode_id connId in
  let fd := decode_fd connId in
  (forall c,
      connections (st w) !! fd = Some c -> conn_id c = id -> conn_opened c = true ->
      let written := mkWorld (snd (conn_write (tick w) c data (st w))) (S (tick w))
                             (log w ++ [CallConnWrite c data]) in
      let called := mkWorld (snd (invoke (tick w) cb c (st w))) (S (tick w))
                            (log w ++ [CallCallback cb c]) in
      run_task (TaskAsyncWrite id fd data) w = (None, written)
      /\ engine_AsyncWrite_closure id fd data w = (None, written)
      /\ run_task (TaskTrigger id fd cb) w = (None, called)
      /\ engine_Trigger_closure id fd cb w = (None, called))
  /\ (~ (exists c, connections (st w) !! fd = Some c
                   /\ conn_id c = id /\ conn_opened c = true) ->
      run_task (TaskAsyncWrite id fd data) w = (None, w)
      /\ engine_AsyncWrite_closure id fd data w = (None, w)
      /\ run_task (TaskTrigger id fd cb) w = (None, w)
      /\ engine_Trigger_closure id fd cb w = (None, w))
  /\ (forall c', connections (st w) !! fd = Some c' -> conn_id c' <> id ->
      run_task (TaskAsyncWrite id fd data) w = (None, w)
      /\ run_task (TaskTrigger id fd cb) w = (None, w)).
Proof.
  intros id fd. split; [|split].
  - intros c Hc Hid Hop written called.
    rewrite engine_AsyncWrite_closure_eq, engine_Trigger_closure_eq. simpl.
    rewrite (AsyncWrite_closure_live id fd data w c) by assumption.
    rewrite (Trigger_closure_live id fd cb w c) by assumption.
    auto.
  - intros Hno.
    rewrite engine_AsyncWrite_closure_eq, engine_Trigger_closure_eq. simpl.
    rewrite AsyncWrite_closure_stale, Trigger_closure_stale by assumption.
    auto.
  - intros c' Hc' Hne. simpl.
    rewrite AsyncWrite_closure_stale, Trigger_closure_stale; [auto| |].
    + intros (c & Hc & Hid & _). congruence.
    + intros (c & Hc & Hid & _). congruence.
Qed.

End WithExternals.

(** The ConnId of the connection (loop 0, generation 3, fd 7), used after fd
    7 went to a connection of generation 4: nothing is written. *)
Lemma stale_connid_is_noop_witness :
  let w := Concrete.world_of Concrete.loop_fd_reused in
  let connId := 0x0000000300000007 in
  (decode_id connId = 3 /\ decode_fd connId = 7)
  /\ connections (st w) !! 7 = Some (mkConn 7 4 true [])
  /\ run_task (CO := Concrete.buffering_conn) (UC := Concrete.idle_user)
       (LO := Concrete.plain_loop)
       (TaskAsyncWrite (decode_id connId) (decode_fd connId) [Byte.x5a]) w = (None, w).
Proof.
  intros w connId.
  split; [split; reflexivity|]. split; [reflexivity|].
  pose proof (stale_connid_is_noop (CO := Concrete.buffering_conn)
                (UC := Concrete.idle_user) (LO := Concrete.plain_loop) connId [Byte.x5a] 0%N w) as (_ & _ & Hreuse).
  apply (Hreuse (mkConn 7 4 true [])).
  - reflexivity.
  - vm_compute. discriminate.
Defined.

End ClosureFacts.

(** ** Readiness dispatch and the exit of the loop entry functions *)

Module ReactorFacts.
Import Model External Loop.
Import ClosureFacts.

Section WithExternals.
Context {CO : ConnOps} {UC : UserCode} {LO : LoopOps} {NP : Netpoll}.

(** The three callees of the handlers, as the handlers call them. *)
Abbreviation accept_call fd ev flags :=
  (ext (CallAccept fd ev flags) (fun t => eventloop_accept t fd ev flags)).
Abbreviation processIO_call c fd ev flags :=
  (ext (CallProcessIO c fd ev flags) (fun t => conn_processIO t c fd ev flags)).
Abbreviation delete_call fd :=
  (ext (CallPollerDelete fd) (fun t => on_poller (Poller_Delete t fd))).

Lemma run_handler_conn fd ev flags w c :
  connections (st w) !! fd = Some c ->
  run_handler fd ev flags w = processIO_call c fd ev flags w.
Proof.
  intros Hc. unfold run_handler, getConn, bind at 1, get. simpl.
  rewrite Hc. reflexivity.
Qed.

Lemma run_handler_listener fd ev flags w :
  connections (st w) !! fd = None -> is_Some (el_listeners (st w) !! fd) ->
  run_handler fd ev flags w = accept_call fd ev flags w.
Proof.
  intros Hc [ln Hl]. unfold run_handler, getConn, bind at 1, get. simpl.
  rewrite Hc, Hl. reflexivity.
Qed.

Lemma run_handler_stale fd ev flags w :
  connections (st w) !! fd = None -> el_listeners (st w) !! fd = None ->
  run_handler fd ev flags w = delete_call fd w.
Proof.
  intros Hc Hl. unfold run_handler, getConn, bind at 1, get. simpl.
  rewrite Hc, Hl. reflexivity.
Qed.

(** The connection lookup comes first: on an fd that were both a listener's
    and a connection's, [run] would call [processIO]. *)
Lemma run_handler_conn_first fd ev flags w c :
  connections (st w) !! fd = Some c -> is_Some (el_listeners (st w) !! fd) ->
  run_handler fd ev flags w = processIO_call c fd ev flags w.
Proof. intros Hc _. apply run_handler_conn, Hc. Qed.

Lemma orbit_handler_conn fd ev flags w c :
  connections (st w) !! fd = Some c ->
  orbit_handler fd ev flags w = processIO_call c fd ev flags w.
Proof.
  intros Hc. unfold orbit_handler, getConn, bind at 1, get. simpl.
  rewrite Hc. reflexivity.
Qed.

Lemma orbit_handler_stale fd ev flags w :
  connections (st w) !! fd = None ->
  orbit_handler fd ev flags w = delete_call fd w.
Proof.
  intros Hc. unfold orbit_handler, getConn, bind at 1, get. simpl.
  rewrite Hc. reflexivity.
Qed.

Lemma ext_log {A} (c : call) (f : nat -> eventloop -> A * eventloop) (w : lworld) :
  log (snd (ext c f w)) = log w ++ [c].
Proof. unfold ext. destruct (f (tick w) (st w)). reflexivity. Qed.

(** C8. Readiness dispatch. In a loop whose listener descriptors are not
    keys of its connections map (both are open descriptors of the process),
    [run]'s handler hands every ready fd that is a registered listener fd to
    [accept], every ready fd owned by a connection to that connection's
    [processIO], and deletes from the poller every ready fd that has neither
    a connection nor a listener. [orbit]'s handler never accepts: every
    ready fd goes to its connection's [processIO] or is deleted from the
    poller. *)
Theorem readiness_dispatch (fd ev flags : Z) (w : lworld) :
  (forall l, is_Some (el_listeners (st w) !! l) -> connections (st w) !! l = None) ->
  (is_Some (el_listeners (st w) !! fd) ->
     run_handler fd ev flags w = accept_call fd ev flags w)
  /\ (forall c, connections (st w) !! fd = Some c ->
        run_handler fd ev flags w = processIO_call c fd ev flags w)
  /\ (connections (st w) !! fd = None -> el_listeners (st w) !! fd = None ->
        run_handler fd ev flags w = delete_call fd w)
  /\ (forall c, connections (st w) !! fd = Some c ->
        orbit_handler fd ev flags w = processIO_call c fd ev flags w)
  /\ (connections (st w) !! fd = None ->
        orbit_handler fd ev flags w = delete_call fd w)
  /\ (forall fd' ev' flags',
        CallAccept fd' ev' flags' ∉ drop (length (log w))
                                       (log (snd (orbit_handler fd ev flags w)))).
Proof.
  intros Hfds. repeat split.
  - intros Hl. apply run_handler_listener; auto.
  - intros c. apply run_handler_conn.
  - apply run_handler_stale.
  - intros c. apply orbit_handler_conn.
  - apply orbit_handler_stale.
  - intros fd' ev' flags'.
    destruct (connections (st w) !! fd) as [c|] eqn:Hc.
    + rewrite (orbit_handler_conn _ _ _ _ c Hc), ext_log, drop_app_length.
      intros Hin. apply list_elem_of_singleton in Hin. discriminate.
    + rewrite (orbit_handler_stale _ _ _ _ Hc), ext_log, drop_app_length.
      intros Hin. apply list_elem_of_singleton in Hin. discriminate.
Qed.


(** *** Leaving the polling loop *)

Lemma classify_exit_spec err (w : lworld) :
  classify_exit err w =
  (exit_value err, mkWorld (st w) (tick w) (log w ++ exit_trace err)).
Proof.
  unfold classify_exit, exit_value, exit_trace. destruct w as [s t l].
  destruct (errors_Is err ErrEngineShutdown); [reflexivity|].
  destruct err; simpl; [reflexivity|].
  unfold ret. simpl. rewrite app_nil_r. reflexivity.
Qed.

Lemma deferred_unlock_spec o (w : lworld) :
  deferred_unlock o w = (tt, mkWorld (st w) (tick w) (log w ++ unlock_trace o)).
Proof.
  unfold deferred_unlock, unlock_trace. destruct w as [s t l].
  destruct (LockOSThread o); simpl; [reflexivity|].
  unfold ret. rewrite app_nil_r. reflexivity.
Qed.

(** [run] and [orbit], whatever the handler: the world they leave. *)
Lemma worker_exit_spec (h : Z -> Z -> Z -> ST lworld (option error)) o w :
  let p := Poller_Polling h (entered o w) in
  let r := exit_value (fst p) in
  (let* _ := lock_thread o in
   let* _ := emit CallPolling in
   let* err := Poller_Polling h in
   let* err := classify_exit err in
   let* _ := ext CallCloseConns eventloop_closeConns in
   let* _ := emit (CallEngineShutdown err) in
   let* _ := deferred_unlock o in
   ret err) w =
  (r, mkWorld (snd (eventloop_closeConns (tick (snd p)) (st (snd p))))
              (S (tick (snd p)))
              (log (snd p) ++ exit_trace (fst p)
                 ++ [CallCloseConns; CallEngineShutdown r] ++ unlock_trace o)).
Proof.
  intros p r. subst p r. unfold entered, bind.
  destruct (lock_thread o w) as [[] w0]. simpl.
  destruct (Poller_Polling h _) as [perr w1]. simpl.
  rewrite classify_exit_spec. unfold ext. simpl.
  destruct (eventloop_closeConns (tick w1) (st w1)) as [[] s2]. simpl.
  rewrite deferred_unlock_spec. simpl. unfold ret.
  rewrite <- !app_assoc. reflexivity.
Qed.

Lemma run_spec o w :
  let p := Poller_Polling run_handler (entered o w) in
  let r := exit_value (fst p) in
  run o w =
  (r, mkWorld (snd (eventloop_closeConns (tick (snd p)) (st (snd p))))
              (S (tick (snd p)))
              (log (snd p) ++ exit_trace (fst p)
                 ++ [CallCloseConns; CallEngineShutdown r] ++ unlock_trace o)).
Proof. apply (worker_exit_spec run_handler). Qed.

Lemma orbit_spec o w :
  let p := Poller_Polling orbit_handler (entered o w) in
  let r := exit_value (fst p) in
  orbit o w =
  (r, mkWorld (snd (eventloop_closeConns (tick (snd p)) (st (snd p))))
              (S (tick (snd p)))
              (log (snd p) ++ exit_trace (fst p)
                 ++ [CallCloseConns; CallEngineShutdown r] ++ unlock_trace o)).
Proof. apply (worker_exit_spec orbit_handler). Qed.

Lemma rotate_spec o w :
  let p := Poller_Polling rotate_handler (entered o w) in
  let r := exit_value (fst p) in
  rotate o w =
  (r, mkWorld (st (snd p)) (tick (snd p))
              (log (snd p) ++ exit_trace (fst p)
                 ++ [CallEngineShutdown r] ++ unlock_trace o)).
Proof.
  intros p r. subst p r. unfold rotate, entered, bind.
  destruct (lock_thread o w) as [[] w0]. simpl.
  destruct (Poller_Polling rotate_handler _) as [perr w1]. simpl.
  rewrite classify_exit_spec. simpl.
  rewrite deferred_unlock_spec. simpl. unfold ret.
  rewrite <- !app_assoc. reflexivity.
Qed.

Lemma exit_value_shutdown err :
  errors_Is err ErrEngineShutdown = true -> exit_value err = None.
Proof. unfold exit_value. intros ->. reflexivity. Qed.

Lemma exit_value_other err :
  errors_Is err ErrEngineShutdown = false -> exit_value err = err.
Proof. unfold exit_value. intros ->. reflexivity. Qed.


(** C6. For [run], [orbit] and [rotate]: when [Polling] returns an error
    that matches the [ErrEngineShutdown] sentinel, the function returns nil;
    when it returns any other non-nil error, the function returns that
    error unchanged; and in every case [engine.shutdown] is called, after
    [Polling], with the value the function returns. *)
Theorem shutdown_sentinel_not_surfaced (o : Options) (w : lworld) :
  let polled h := Poller_Polling h (entered o w) in
  let funnels h (res : option error * lworld) :=
    CallEngineShutdown (fst res)
      ∈ drop (length (log (snd (polled h)))) (log (snd res)) in
  ((errors_Is (fst (polled run_handler)) ErrEngineShutdown = true ->
      fst (run o w) = None)
   /\ (forall e, fst (polled run_handler) = Some e ->
         errors_Is (Some e) ErrEngineShutdown = false -> fst (run o w) = Some e)
   /\ funnels run_handler (run o w))
  /\ ((errors_Is (fst (polled orbit_handler)) ErrEngineShutdown = true ->
         fst (orbit o w) = None)
      /\ (forall e, fst (polled orbit_handler) = Some e ->
            errors_Is (Some e) ErrEngineShutdown = false -> fst (orbit o w) = Some e)
      /\ funnels orbit_handler (orbit o w))
  /\ ((errors_Is (fst (polled rotate_handler)) ErrEngineShutdown = true ->
         fst (rotate o w) = None)
      /\ (forall e, fst (polled rotate_handler) = Some e ->
            errors_Is (Some e) ErrEngineShutdown = false -> fst (rotate o w) = Some e)
      /\ funnels rotate_handler (rotate o w)).
Proof.
  intros polled funnels. subst polled funnels. cbv beta.
  rewrite run_spec, orbit_spec, rotate_spec. simpl.
  repeat split.
  - apply exit_value_shutdown.
  - intros e He Hother. rewrite He. apply exit_value_other, Hother.
  - rewrite drop_app_length. set_solver.
  - apply exit_value_shutdown.
  - intros e He Hother. rewrite He. apply exit_value_other, Hother.
  - rewrite drop_app_length. set_solver.
  - apply exit_value_shutdown.
  - intros e He Hother. rewrite He. apply exit_value_other, Hother.
  - rewrite drop_app_length. set_solver.
Qed.

(** C10. When a worker loop leaves [Polling], for the sentinel or for any
    other result, [run] and [orbit] call [closeConns] on the loop and then
    [engine.shutdown]: the loop they leave is the one [closeConns] made of
    the loop [Polling] left, so with a [closeConns] that empties the
    connections map no connection is left in the map when they return.
    [rotate] calls [engine.shutdown] only and leaves the loop as [Polling]
    left it. *)
Theorem worker_exit_closes_conns (o : Options) (w : lworld) :
  let polled h := Poller_Polling h (entered o w) in
  let closed h := snd (eventloop_closeConns (tick (snd (polled h))) (st (snd (polled h)))) in
  (log (snd (run o w)) =
     log (snd (polled run_handler)) ++ exit_trace (fst (polled run_handler))
       ++ [CallCloseConns; CallEngineShutdown (fst (run o w))] ++ unlock_trace o
   /\ st (snd (run o w)) = closed run_handler)
  /\ (log (snd (orbit o w)) =
        log (snd (polled orbit_handler)) ++ exit_trace (fst (polled orbit_handler))
          ++ [CallCloseConns; CallEngineShutdown (fst (orbit o w))] ++ unlock_trace o
      /\ st (snd (orbit o w)) = closed orbit_handler)
  /\ (log (snd (rotate o w)) =
        log (snd (polled rotate_handler)) ++ exit_trace (fst (polled rotate_handler))
          ++ [CallEngineShutdown (fst (rotate o w))] ++ unlock_trace o
      /\ st (snd (rotate o w)) = st (snd (polled rotate_handler))
      /\ CallCloseConns ∉ drop (length (log (snd (polled rotate_handler))))
                               (log (snd (rotate o w))))
  /\ ((forall t el, connections (snd (eventloop_closeConns t el)) = ∅) ->
      connections (st (snd (run o w))) = ∅
      /\ connections (st (snd (orbit o w))) = ∅).
Proof.
  intros polled closed. subst polled closed. cbv beta.
  rewrite run_spec, orbit_spec, rotate_spec. simpl.
  repeat split; try solve [auto].
  rewrite drop_app_length.
  unfold exit_trace, unlock_trace.
  destruct (errors_Is _ _), (fst (Poller_Polling rotate_handler (entered o w))),
    (LockOSThread o); rewrite list_elem_of_In; simpl; intuition discriminate.
Qed.

End WithExternals.

(** A loop (listener fd 3, connection on fd 7) woken for fd 3: [run]
    accepts. *)
Lemma readiness_dispatch_witness :
  let w := Concrete.world_of Concrete.loop_with_conn in
  let NP := Concrete.queue_poller 3 None in
  run_handler (CO := Concrete.buffering_conn) (LO := Concrete.plain_loop) 3 1 0 w =
  (None, mkWorld Concrete.loop_with_conn 1 [CallAccept 3 1 0]).
Proof.
  intros w NP.
  pose proof (readiness_dispatch (CO := Concrete.buffering_conn)
                (LO := Concrete.plain_loop) (NP := NP) 3 1 0 w) as Hd.
  destruct Hd as (Haccept & _).
  - intros l [ln Hl]. simpl in Hl.
    apply lookup_singleton_Some in Hl as [<- _]. reflexivity.
  - rewrite Haccept; [reflexivity|]. eexists. reflexivity.
Defined.

(** A worker that owns a connection, woken once and then stopped: its map
    is empty when [run] and [orbit] return. *)
Lemma worker_exit_closes_conns_witness :
  let w := Concrete.world_of Concrete.loop_with_conn in
  let NP := Concrete.queue_poller 7 (Some ErrEngineShutdown) in
  connections (st w) !! 7 = Some (mkConn 7 3 true [])
  /\ connections (st (snd (run (CO := Concrete.buffering_conn)
                                (LO := Concrete.plain_loop) Concrete.no_options w))) = ∅
  /\ connections (st (snd (orbit (CO := Concrete.buffering_conn)
                                  (LO := Concrete.plain_loop) Concrete.no_options w))) = ∅.
Proof.
  intros w NP. split; [reflexivity|].
  pose proof (worker_exit_closes_conns (CO := Concrete.buffering_conn)
                (LO := Concrete.plain_loop) (NP := NP) Concrete.no_options w)
    as (_ & _ & _ & Hempty).
  apply Hempty. intros t el. reflexivity.
Defined.

(** [run] on a poller that unwinds with a wrapped sentinel returns nil; on
    one that fails with [EBADF] it returns [EBADF]. *)
Lemma shutdown_sentinel_not_surfaced_witness :
  let w := Concrete.world_of Concrete.loop_with_conn in
  let stopping := Concrete.queue_poller 7 (Some (Wrapped "stop" ErrEngineShutdown)) in
  let failing := Concrete.queue_poller 7 (Some Concrete.EBADF) in
  fst (run (CO := Concrete.buffering_conn) (LO := Concrete.plain_loop)
           (NP := stopping) Concrete.no_options w) = None
  /\ fst (run (CO := Concrete.buffering_conn) (LO := Concrete.plain_loop)
              (NP := failing) Concrete.no_options w) = Some Concrete.EBADF.
Proof.
  intros w stopping failing. split.
  - pose proof (shutdown_sentinel_not_surfaced (CO := Concrete.buffering_conn)
                  (LO := Concrete.plain_loop) (NP := stopping)
                  Concrete.no_options w) as ((Hstop & _) & _).
    apply Hstop. reflexivity.
  - pose proof (shutdown_sentinel_not_surfaced (CO := Concrete.buffering_conn)
                  (LO := Concrete.plain_loop) (NP := failing)
                  Concrete.no_options w) as ((_ & Hfail & _) & _).
    apply Hfail; reflexivity.
Defined.

End ReactorFacts.

(** ** The handle, and the choice of topology *)

Module EngineFacts.
Import Model External ConnIdCodec Loop Eng.

Section WithExternals.
Context {NP : Netpoll} {RT : Runtime}.

Lemma Engine_AsyncWrite_nil e connId data w :
  eng e = nil_engine -> Engine_AsyncWrite e connId data w = (Some ErrEmptyEngine, w).
Proof. intros He. unfold Engine_AsyncWrite. rewrite He. reflexivity. Qed.

Lemma Engine_AsyncWrite_live e connId data w :
  eng e <> nil_engine -> fst (Engine_AsyncWrite e connId data w) = None.
Proof.
  intros He. unfold Engine_AsyncWrite.
  destruct (eng e); [congruence|].
  unfold bind. destruct (iterate _ w). reflexivity.
Qed.

(** C5. [Engine.AsyncWrite] returns [ErrEmptyEngine] exactly when the
    handle's engine pointer is nil, and then does nothing else; for every
    other input (whatever the loop index, the fd and the generation id in
    the connId) it returns nil. [Engine.Trigger] on a handle with a nil
    engine, or with a nil callback, returns and leaves everything as it
    was. *)
Theorem AsyncWrite_error_iff_empty_engine
    (e : Engine) (connId : Z) (data : bytes) (cb : option funcval) (w : eworld) :
  (fst (Engine_AsyncWrite e connId data w) = Some ErrEmptyEngine <-> eng e = nil_engine)
  /\ (eng e = nil_engine -> Engine_AsyncWrite e connId data w = (Some ErrEmptyEngine, w))
  /\ (eng e <> nil_engine -> fst (Engine_AsyncWrite e connId data w) = None)
  /\ (eng e = nil_engine \/ cb = None -> Engine_Trigger e connId cb w = (tt, w)).
Proof.
  split; [|split; [|split]].
  - destruct (eng e) eqn:He.
    + rewrite Engine_AsyncWrite_nil by assumption. split; reflexivity.
    + rewrite Engine_AsyncWrite_live by congruence. split; discriminate.
  - apply Engine_AsyncWrite_nil.
  - apply Engine_AsyncWrite_live.
  - intros [He| ->]; unfold Engine_Trigger.
    + rewrite He. reflexivity.
    + destruct (eng e); reflexivity.
Qed.

(** *** What the handle enqueues *)

(** The callback the handle passes to [iterate]: trigger [t] on the loop of
    position [k], and stop there. *)
Abbreviation trigger_on k t :=
  (fun i : Z =>
     if bool_decide (i = k) then
       let* _ := ext (CallTrigger i HighPriority t)
                     (fun tk => on_poller (Poller_Trigger tk HighPriority t)) in
       ret false
     else ret true).

Lemma decode_elidx_nonneg connId : 0 <= decode_elidx connId.
Proof.
  unfold decode_elidx. change 0xffff with (Z.ones 16).
  rewrite Z.land_ones by lia. apply Z.mod_pos_bound. lia.
Qed.

Lemma trigger_on_trace n :
  forall (i : nat) (w : eworld) k t,
    (i + n = length (lb (st w)))%nat ->
    log (snd (iterate_from n i (trigger_on k t) w)) =
    log w ++ (if bool_decide (Z.of_nat i <= k < Z.of_nat (i + n))
              then [CallTrigger k HighPriority t] else []).
Proof.
  induction n as [|n IH]; intros i w k t Hlen.
  - simpl. rewrite bool_decide_eq_false_2 by lia. rewrite app_nil_r. reflexivity.
  - simpl. unfold bind at 1.
    destruct (lookup_lt_is_Some_2 (lb (st w)) i ltac:(lia)) as [el Hel].
    unfold at_loop. rewrite Hel.
    destruct (decide (Z.of_nat i = k)) as [<-|Hne].
    + rewrite bool_decide_eq_true_2 by reflexivity.
      unfold bind, ext. simpl.
      destruct (on_poller _ el) as [r el']. simpl.
      rewrite bool_decide_eq_true_2 by lia. reflexivity.
    + rewrite bool_decide_eq_false_2 by assumption. simpl.
      rewrite IH by (simpl; rewrite length_insert; lia). simpl.
      f_equal.
      rewrite (bool_decide_ext (Z.of_nat (S i) <= k < Z.of_nat (S i + n))
                               (Z.of_nat i <= k < Z.of_nat (i + S n))) by lia.
      reflexivity.
Qed.

(** On a live handle [AsyncWrite] enqueues, with high priority and on the
    loop whose position is the decoded index, the closure over the decoded
    id and fd; a decoded index beyond the loops enqueues nothing. *)
Lemma Engine_AsyncWrite_trace e connId data (w : eworld) :
  eng e <> nil_engine ->
  log (snd (Engine_AsyncWrite e connId data w)) =
  log w ++ (if bool_decide (decode_elidx connId < Z.of_nat (length (lb (st w))))
            then [CallTrigger (decode_elidx connId) HighPriority
                    (TaskAsyncWrite (decode_id connId) (decode_fd connId) data)]
            else []).
Proof.
  intros He. unfold Engine_AsyncWrite. destruct (eng e); [congruence|].
  unfold iterate, bind, get. cbv beta iota zeta.
  pose proof (trigger_on_trace (length (lb (st w))) 0 w (decode_elidx connId)
                (TaskAsyncWrite (decode_id connId) (decode_fd connId) data) eq_refl) as Ht.
  destruct (iterate_from _ _ _ w) as [[] w1]. unfold ret. cbn [fst snd] in *.
  rewrite Ht. f_equal.
  pose proof (decode_elidx_nonneg connId).
  rewrite (bool_decide_ext (Z.of_nat 0 <= decode_elidx connId
                            < Z.of_nat (0 + length (lb (st w))))
             (decode_elidx connId < Z.of_nat (length (lb (st w))))) by lia.
  reflexivity.
Qed.

Lemma Engine_Trigger_trace e connId cb (w : eworld) :
  eng e <> nil_engine ->
  log (snd (Engine_Trigger e connId (Some cb) w)) =
  log w ++ (if bool_decide (decode_elidx connId < Z.of_nat (length (lb (st w))))
            then [CallTrigger (decode_elidx connId) HighPriority
                    (TaskTrigger (decode_id connId) (decode_fd connId) cb)]
            else []).
Proof.
  intros He. unfold Engine_Trigger. destruct (eng e); [congruence|].
  unfold iterate, bind at 1, get. cbv beta iota zeta.
  rewrite (trigger_on_trace (length (lb (st w))) 0 w (decode_elidx connId)
             (TaskTrigger (decode_id connId) (decode_fd connId) cb) eq_refl).
  f_equal.
  pose proof (decode_elidx_nonneg connId).
  rewrite (bool_decide_ext (Z.of_nat 0 <= decode_elidx connId
                            < Z.of_nat (0 + length (lb (st w))))
             (decode_elidx connId < Z.of_nat (length (lb (st w))))) by lia.
  reflexivity.
Qed.

(** What [start] decides on: the network of the listener that [range]
    visits first. *)
Lemma start_reuseport numEventLoop (w : eworld) :
  ReusePort (opts (st w)) = true
  \/ first_network (map_range (tick w) (listeners (st w))) = "udp" ->
  start numEventLoop w = activateEventLoops numEventLoop (ranged w).
Proof.
  intros Hc. unfold start, bind, get, range, ranged. simpl.
  destruct Hc as [-> | ->]; [reflexivity|].
  rewrite bool_decide_eq_true_2 by reflexivity.
  rewrite orb_true_r. reflexivity.
Qed.

Lemma start_reactors numEventLoop (w : eworld) :
  ReusePort (opts (st w)) = false ->
  first_network (map_range (tick w) (listeners (st w))) <> "udp" ->
  start numEventLoop w = activateReactors numEventLoop (ranged w).
Proof.
  intros Hr Hn. unfold start, bind, get, range, ranged. simpl.
  rewrite Hr, bool_decide_eq_false_2 by assumption. reflexivity.
Qed.

(** *** The ticker in [activateEventLoops] *)

Lemma rebind_listeners_state o visit :
  forall ls (w : eworld), st (snd (rebind_listeners o visit ls w)) = st w.
Proof.
  induction visit as [|[k ln] rest IH]; intros ls w; [reflexivity|].
  simpl. unfold bind, ext_pure, ext. simpl.
  destruct (initListener (tick w) (ln_network ln) (ln_address ln) o) as [err|ln'];
    [reflexivity|].
  rewrite IH. reflexivity.
Qed.

Lemma addRead_listeners_state visit :
  forall el (w : eworld), st (snd (addRead_listeners visit el w)) = st w.
Proof.
  induction visit as [|[k ln] rest IH]; intros el w; [reflexivity|].
  simpl. unfold bind, ext_pure, ext. simpl.
  destruct (on_poller (Poller_AddRead (tick w) (ln_fd ln)) el) as [[err|] el'];
    [reflexivity|].
  rewrite IH. reflexivity.
Qed.

(** With the [Ticker] option off, the [for] loop never assigns [striker]. *)
Lemma activateEventLoops_for_striker n :
  forall i lns s (w : eworld),
    Ticker (opts (st w)) = false ->
    forall s', fst (activateEventLoops_for n i lns s w) = inr s' -> s' = s.
Proof.
  induction n as [|n IH]; intros i lns s w Ht s'; simpl.
  { intros [= <-]. reflexivity. }
  unfold bind at 1, get at 1. simpl.
  unfold bind at 1.
  destruct ((if bool_decide (0 < i)
             then let* visit := range lns in rebind_listeners (opts (st w)) visit ∅
             else ret (inr lns)) w) as [r w1] eqn:E1.
  assert (S1 : st w1 = st w).
  { destruct (bool_decide (0 < i)).
    - unfold bind, range in E1. simpl in E1.
      pose proof (rebind_listeners_state (opts (st w))
                    (map_range (tick w) lns) ∅
                    (mkWorld (st w) (S (tick w)) (log w))) as Hs.
      rewrite E1 in Hs. exact Hs.
    - injection E1 as _ <-. reflexivity. }
  destruct r as [err|lns1]; [discriminate|].
  unfold bind at 1, ext_pure at 1, ext at 1. simpl.
  destruct (OpenPoller (tick w1)) as [err|p]; [discriminate|].
  unfold bind at 1, range at 1. simpl.
  unfold bind at 1.
  match goal with |- context [addRead_listeners ?v ?el ?w2] =>
    pose proof (addRead_listeners_state v el w2) as S2;
    destruct (addRead_listeners v el w2) as [[[err|] el'] w3]
  end; [discriminate|].
  simpl in S2.
  unfold bind at 1, register at 1, bind, get, emit, put. simpl.
  rewrite <- S1, <- S2 in Ht |- *. rewrite Ht, andb_false_r.
  apply IH. simpl. exact Ht.
Qed.

(** With the [Ticker] option off, whenever [activateEventLoops] gets through
    its loop (it returns nil), the last thing it does is to spawn the ticker
    on a nil receiver. *)
Lemma activateEventLoops_ticker_unguarded numEventLoop (w : eworld) :
  Ticker (opts (st w)) = false ->
  fst (activateEventLoops numEventLoop w) = None ->
  exists l, log (snd (activateEventLoops numEventLoop w)) = l ++ [CallGo (GoTicker None)].
Proof.
  intros Ht. unfold activateEventLoops, bind, get, put, emit. simpl.
  match goal with |- context [activateEventLoops_for ?n ?i ?l ?s ?w0] =>
    pose proof (activateEventLoops_for_striker n i l s w0 Ht) as Hs;
    destruct (activateEventLoops_for n i l s w0) as [[err|striker] w1]
  end.
  - simpl. discriminate.
  - rewrite (Hs striker eq_refl). intros _.
    destruct (startEventLoops w1) as [[] w2]. simpl.
    eexists. reflexivity.
Qed.

(** With the [Ticker] option on, [striker] is the loop registered at
    position 0, once there is one. *)
Lemma activateEventLoops_for_striker_on n :
  forall i lns s (w : eworld),
    Ticker (opts (st w)) = true ->
    forall s', fst (activateEventLoops_for n i lns s w) = inr s' ->
    s' = if decide (length (lb (st w)) = 0%nat)
         then match n with O => s | S _ => Some (Worker 0) end
         else s.
Proof.
  induction n as [|n IH]; intros i lns s w Ht s'; simpl.
  { intros [= <-]. destruct (decide _); reflexivity. }
  unfold bind at 1, get at 1. simpl.
  unfold bind at 1.
  destruct ((if bool_decide (0 < i)
             then let* visit := range lns in rebind_listeners (opts (st w)) visit ∅
             else ret (inr lns)) w) as [r w1] eqn:E1.
  assert (S1 : st w1 = st w).
  { destruct (bool_decide (0 < i)).
    - unfold bind, range in E1. simpl in E1.
      pose proof (rebind_listeners_state (opts (st w))
                    (map_range (tick w) lns) ∅
                    (mkWorld (st w) (S (tick w)) (log w))) as Hs.
      rewrite E1 in Hs. exact Hs.
    - injection E1 as _ <-. reflexivity. }
  destruct r as [err|lns1]; [discriminate|].
  unfold bind at 1, ext_pure at 1, ext at 1. simpl.
  destruct (OpenPoller (tick w1)) as [err|p]; [discriminate|].
  unfold bind at 1, range at 1. simpl.
  unfold bind at 1.
  match goal with |- context [addRead_listeners ?v ?el ?w2] =>
    pose proof (addRead_listeners_state v el w2) as S2;
    destruct (addRead_listeners v el w2) as [[[err|] el'] w3]
  end; [discriminate|].
  simpl in S2.
  unfold bind at 1, register at 1, bind, get, emit, put. simpl.
  rewrite <- S1, <- S2 in Ht |- *. rewrite Ht, andb_true_r.
  intros Hs'. apply IH in Hs'; [|simpl; exact Ht].
  simpl in Hs'. rewrite length_app in Hs'. simpl in Hs'.
  destruct (decide ((length (lb (st w3)) + 1)%nat = 0%nat)) as [Habs|_] in Hs';
    [lia|].
  rewrite Hs'.
  destruct (decide (length (lb (st w3)) = 0%nat)) as [Hz|Hnz].
  - rewrite Hz. reflexivity.
  - rewrite bool_decide_eq_false_2 by lia. reflexivity.
Qed.

(** With the [Ticker] option on, at least one loop asked for and no loop
    registered before, an [activateEventLoops] that gets through its loop
    ends by spawning the ticker on the loop of idx 0. *)
Lemma activateEventLoops_ticker_on_loop0 numEventLoop (w : eworld) :
  Ticker (opts (st w)) = true -> lb (st w) = [] -> 0 < numEventLoop ->
  fst (activateEventLoops numEventLoop w) = None ->
  exists l, log (snd (activateEventLoops numEventLoop w))
            = l ++ [CallGo (GoTicker (Some (Worker 0)))].
Proof.
  intros Ht Hlb Hn. unfold activateEventLoops, bind, get, put, emit. simpl.
  match goal with |- context [activateEventLoops_for ?n ?i ?l ?s ?w0] =>
    pose proof (activateEventLoops_for_striker_on n i l s w0 Ht) as Hs;
    destruct (activateEventLoops_for n i l s w0) as [[err|striker] w1]
  end.
  - simpl. discriminate.
  - rewrite (Hs striker eq_refl). simpl. rewrite Hlb. simpl.
    destruct (Z.to_nat numEventLoop) eqn:En; [lia|]. intros _.
    destruct (startEventLoops w1) as [[] w2]. simpl.
    eexists. reflexivity.
Qed.

(** *** Uniform listeners: [start] agrees with "some listener is udp" *)

Lemma first_network_uniform (m : gmap Z listener) (net : string) t :
  m <> ∅ ->
  (forall fd ln, m !! fd = Some ln -> ln_network ln = net) ->
  first_network (map_range t m) = net.
Proof.
  intros Hne Hall.
  pose proof (map_range_perm t m) as Hperm.
  destruct (map_range t m) as [|[fd ln] rest] eqn:E.
  - exfalso. apply Hne. apply map_to_list_empty_iff.
    apply Permutation_nil_l in Hperm. symmetry. exact Hperm.
  - simpl. apply (Hall fd).
    apply elem_of_map_to_list. rewrite <- Hperm. left.
Qed.

(** X17. When all listeners have the same network (in particular when there
    is one listener), [start] runs reuseport mode exactly when [ReusePort]
    is set or some listener is udp, whatever the order [range] visits the
    listeners in. *)
Lemma start_uniform_listeners numEventLoop (w : eworld) (net : string) :
  listeners (st w) <> ∅ ->
  (forall fd ln, listeners (st w) !! fd = Some ln -> ln_network ln = net) ->
  let some_udp := exists fd ln, listeners (st w) !! fd = Some ln /\ ln_network ln = "udp" in
  (ReusePort (opts (st w)) = true \/ some_udp ->
     start numEventLoop w = activateEventLoops numEventLoop (ranged w))
  /\ (~ (ReusePort (opts (st w)) = true \/ some_udp) ->
     start numEventLoop w = activateReactors numEventLoop (ranged w)).
Proof.
  intros Hne Hall some_udp.
  pose proof (first_network_uniform _ net (tick w) Hne Hall) as Hfirst.
  split.
  - intros [Hr|(fd & ln & Hl & Hu)]; apply start_reuseport; [left; exact Hr|right].
    rewrite Hfirst. rewrite <- (Hall fd ln Hl). exact Hu.
  - intros Hno. apply start_reactors.
    + destruct (ReusePort (opts (st w))); [exfalso; apply Hno; left|]; reflexivity.
    + rewrite Hfirst. intros ->. apply Hno. right.
      destruct (map_choose _ Hne) as (fd & ln & Hl).
      exists fd, ln. split; [exact Hl|]. apply (Hall fd ln Hl).
Qed.

End WithExternals.

(** On a zero handle [AsyncWrite] returns [ErrEmptyEngine]; on a live one,
    with a connId whose loop index matches no loop, it returns nil. *)
Lemma AsyncWrite_error_iff_empty_engine_witness :
  let NP := Concrete.queue_poller 0 None in
  let w := Concrete.world_of Concrete.mixed_engine in
  Engine_AsyncWrite (mkHandle nil_engine) 0 [] w = (Some ErrEmptyEngine, w)
  /\ fst (Engine_AsyncWrite (mkHandle this_engine) 0x0005000300000007 [] w) = None
  /\ Engine_Trigger (mkHandle this_engine) 0x0005000300000007 None w = (tt, w).
Proof.
  intros NP w.
  pose proof (AsyncWrite_error_iff_empty_engine (NP := NP) (mkHandle nil_engine)
                0 [] None w) as (_ & Hnil & _ & _).
  pose proof (AsyncWrite_error_iff_empty_engine (NP := NP) (mkHandle this_engine)
                0x0005000300000007 [] None w) as (_ & _ & Hlive & Htrig).
  split; [apply Hnil; reflexivity|].
  split; [apply Hlive; discriminate|].
  apply Htrig. right. reflexivity.
Defined.

(** C3. [start] does not run reuseport mode whenever some listener is udp:
    it looks at the listener that [range] visits first. On an engine with a
    tcp listener (fd 3) and a udp listener (fd 4) and [ReusePort] off, when
    [range] visits fd 3 first [start] runs [activateReactors] (sub-reactors
    and a main loop of idx -1) although a listener is udp; when it visits
    fd 4 first, the same engine is started in reuseport mode. *)
Theorem start_mixed_listeners_depends_on_range :
  let NP := Concrete.queue_poller 0 None in
  let w := Concrete.world_of Concrete.mixed_engine in
  let tcp_first := start (RT := Concrete.listed_runtime) 2 w in
  let udp_first := start (RT := Concrete.reversed_runtime) 2 w in
  ReusePort (opts (st w)) = false
  /\ (exists fd ln, listeners (st w) !! fd = Some ln /\ ln_network ln = "udp")
  /\ tcp_first = activateReactors (RT := Concrete.listed_runtime) 2 (ranged w)
  /\ log (snd tcp_first) =
       [CallOpenPoller; CallRegister 0; CallOpenPoller; CallRegister 1;
        CallWgAdd; CallGo (GoSubReactor 0); CallWgAdd; CallGo (GoSubReactor 1);
        CallOpenPoller; CallAddRead 3; CallAddRead 4;
        CallWgAdd; CallGo GoMainReactor]
  /\ idx <$> mainLoop (st (snd tcp_first)) = Some (-1)
  /\ udp_first = activateEventLoops (RT := Concrete.reversed_runtime) 2 (ranged w)
  /\ mainLoop (st (snd udp_first)) = None.
Proof.
  intros NP w tcp_first udp_first.
  split; [reflexivity|].
  split; [exists 4, Concrete.udp_listener; split; vm_compute; reflexivity|].
  split; [apply start_reactors; vm_compute; [reflexivity|discriminate]|].
  split; [vm_compute; reflexivity|].
  split; [vm_compute; reflexivity|].
  split; [apply start_reuseport; right; vm_compute; reflexivity|].
  vm_compute. reflexivity.
Qed.


End EngineFacts.

(** ** Stopping the engine *)

Module StopFacts.
Import Model External Loop Eng.

(** *** Trace discipline *)

Lemma appends_ret {St A} (P : call -> Prop) (a : A) : appends (St := St) P (ret a).
Proof. intros w. exists []. simpl. rewrite app_nil_r. auto. Qed.

Lemma appends_get {St} (P : call -> Prop) : appends (St := St) P get.
Proof. intros w. exists []. simpl. rewrite app_nil_r. auto. Qed.

Lemma appends_emit {St} (P : call -> Prop) c : P c -> appends (St := St) P (emit c).
Proof. intros Hc w. exists [c]. simpl. auto. Qed.

Lemma appends_ext {St A} (P : call -> Prop) c (f : nat -> St -> A * St) :
  P c -> appends P (ext c f).
Proof.
  intros Hc w. exists [c]. unfold ext.
  destruct (f (tick w) (st w)). simpl. auto.
Qed.

Lemma appends_bind {St A B} (P : call -> Prop) (m : ST (World St) A)
    (k : A -> ST (World St) B) :
  appends P m -> (forall a, appends P (k a)) -> appends P (bind m k).
Proof.
  intros Hm Hk w. unfold bind.
  destruct (Hm w) as (l1 & E1 & F1).
  destruct (m w) as [a w1]. simpl in E1.
  destruct (Hk a w1) as (l2 & E2 & F2).
  exists (l1 ++ l2). rewrite E2, E1, app_assoc. split; [reflexivity|].
  apply Forall_app; auto.
Qed.

Section WithExternals.
Context {NP : Netpoll} {RT : Runtime}.

Lemma appends_at_loop {A} (P : call -> Prop) i (d : A) (m : ST lworld A) :
  appends P m -> appends P (at_loop i d m).
Proof.
  intros Hm w. unfold at_loop.
  destruct (lb (st w) !! i) as [el|].
  - destruct (Hm (mkWorld el (tick w) (log w))) as (l & E & F).
    destruct (m _) as [a w']. simpl in *. eauto.
  - exists []. simpl. rewrite app_nil_r. auto.
Qed.

Lemma appends_at_mainLoop {A} (P : call -> Prop) (d : A) (m : ST lworld A) :
  appends P m -> appends P (at_mainLoop d m).
Proof.
  intros Hm w. unfold at_mainLoop.
  destruct (mainLoop (st w)) as [el|].
  - destruct (Hm (mkWorld el (tick w) (log w))) as (l & E & F).
    destruct (m _) as [a w']. simpl in *. eauto.
  - exists []. simpl. rewrite app_nil_r. auto.
Qed.

Lemma appends_iterate_from (P : call -> Prop) fn n :
  (forall i, appends P (fn i)) -> forall i, appends P (iterate_from n i fn).
Proof.
  intros Hfn. induction n as [|n IH]; intros i; simpl.
  - apply appends_ret.
  - apply appends_bind; [apply appends_at_loop, Hfn|].
    intros [|]; [apply IH|apply appends_ret].
Qed.

Lemma appends_iterate (P : call -> Prop) fn :
  (forall i, appends P (fn i)) -> appends P (iterate fn).
Proof.
  intros Hfn. apply appends_bind; [apply appends_get|].
  intros e. apply appends_iterate_from, Hfn.
Qed.

(** *** The frame *)

Lemma same_frame_refl e : same_frame e e.
Proof. repeat split; auto. Qed.

Lemma same_frame_trans e1 e2 e3 :
  same_frame e1 e2 -> same_frame e2 e3 -> same_frame e1 e3.
Proof.
  intros (L1 & O1 & M1) (L2 & O2 & M2).
  split; [congruence|]. split; [congruence|].
  rewrite M2. exact M1.
Qed.

Lemma keeps_ret {A} (a : A) : keeps (ret a).
Proof. intros w. apply same_frame_refl. Qed.

Lemma keeps_get : keeps get.
Proof. intros w. apply same_frame_refl. Qed.

Lemma keeps_emit c : keeps (emit c).
Proof. intros w. apply same_frame_refl. Qed.

Lemma keeps_bind {A B} (m : ST eworld A) (k : A -> ST eworld B) :
  keeps m -> (forall a, keeps (k a)) -> keeps (bind m k).
Proof.
  intros Hm Hk w. unfold bind.
  pose proof (Hm w) as H1. destruct (m w) as [a w1]. simpl in H1.
  eapply same_frame_trans; [exact H1|apply Hk].
Qed.

Lemma keeps_at_loop {A} i (d : A) (m : ST lworld A) : keeps (at_loop i d m).
Proof.
  intros w. unfold at_loop.
  destruct (lb (st w) !! i) as [el|]; [|apply same_frame_refl].
  destruct (m _) as [a w']. simpl. split; simpl; [|split; reflexivity].
  apply length_insert.
Qed.

Lemma keeps_at_mainLoop {A} (d : A) (m : ST lworld A) : keeps (at_mainLoop d m).
Proof.
  intros w. unfold at_mainLoop.
  destruct (mainLoop (st w)) as [el|] eqn:Hml; [|apply same_frame_refl].
  destruct (m _) as [a w']. simpl. split; [reflexivity|]. split; [reflexivity|].
  simpl. rewrite Hml. split; eauto.
Qed.

Lemma keeps_iterate_from fn n : forall i, keeps (iterate_from n i fn).
Proof.
  induction n as [|n IH]; intros i; simpl.
  - apply keeps_ret.
  - apply keeps_bind; [apply keeps_at_loop|].
    intros [|]; [apply IH|apply keeps_ret].
Qed.

Lemma keeps_iterate fn : keeps (iterate fn).
Proof.
  apply keeps_bind; [apply keeps_get|]. intros e. apply keeps_iterate_from.
Qed.


(** *** The blocks of [stop] *)

Lemma stop_blocks s w :
  stop s w =
  (let* _ := stop_notify in
   let* _ := emit CallWgWait in
   let* _ := stop_close in
   atomic_StoreInt32_inShutdown 1) w.
Proof.
  unfold stop, stop_notify, stop_close, close_mainLoop, bind, get, emit. simpl.
  destruct (iterate _ _) as [[] w1]. simpl.
  destruct (mainLoop (st w1)) as [ml|] eqn:Hml; simpl.
  - destruct (at_mainLoop tt trigger_shutdown _) as [[] w2]. simpl.
    destruct (closeEventLoops _) as [[] w3]. simpl.
    destruct (mainLoop (st w3)); simpl.
    + destruct (at_mainLoop tt _ w3) as [[] w4]. simpl.
      destruct (Ticker (opts (st w4))); reflexivity.
    + destruct (Ticker (opts (st w3))); reflexivity.
  - destruct (closeEventLoops _) as [[] w3]. simpl.
    destruct (mainLoop (st w3)); simpl.
    + destruct (at_mainLoop tt _ w3) as [[] w4]. simpl.
      destruct (Ticker (opts (st w4))); reflexivity.
    + destruct (Ticker (opts (st w3))); reflexivity.
Qed.

Lemma trigger_shutdown_appends : appends before_join trigger_shutdown.
Proof.
  apply appends_bind; [apply appends_get|]. intros el.
  apply appends_bind; [apply appends_ext; exact I|].
  intros [e|]; [apply appends_emit; exact I|apply appends_ret].
Qed.

Lemma stop_notify_appends : appends before_join stop_notify.
Proof.
  unfold stop_notify.
  apply appends_bind; [apply appends_emit; exact I|]. intros _.
  apply appends_bind; [apply appends_emit; exact I|]. intros _.
  apply appends_bind.
  { apply appends_iterate. intros i.
    apply appends_bind; [apply trigger_shutdown_appends|].
    intros _. apply appends_ret. }
  intros _. apply appends_bind; [apply appends_get|]. intros e.
  destruct (mainLoop e); [|apply appends_ret].
  apply appends_bind; [apply appends_emit; exact I|]. intros _.
  apply appends_at_mainLoop, trigger_shutdown_appends.
Qed.

Lemma stop_notify_keeps : keeps stop_notify.
Proof.
  unfold stop_notify.
  apply keeps_bind; [apply keeps_emit|]. intros _.
  apply keeps_bind; [apply keeps_emit|]. intros _.
  apply keeps_bind; [apply keeps_iterate|]. intros _.
  apply keeps_bind; [apply keeps_get|]. intros e.
  destruct (mainLoop e); [|apply keeps_ret].
  apply keeps_bind; [apply keeps_emit|]. intros _.
  apply keeps_at_mainLoop.
Qed.

Lemma closeEventLoops_appends : appends after_join closeEventLoops.
Proof.
  apply appends_iterate. intros i.
  apply appends_bind; [apply appends_ext; exact I|].
  intros _. apply appends_ret.
Qed.

Lemma close_mainLoop_appends : appends after_join close_mainLoop.
Proof.
  unfold close_mainLoop.
  apply appends_bind; [apply appends_get|]. intros e.
  destruct (mainLoop e); [|apply appends_ret].
  apply appends_at_mainLoop.
  apply appends_bind; [apply appends_ext; exact I|].
  intros [err|]; [apply appends_emit; exact I|apply appends_ret].
Qed.

Lemma close_mainLoop_keeps : keeps close_mainLoop.
Proof.
  unfold close_mainLoop.
  apply keeps_bind; [apply keeps_get|]. intros e.
  destruct (mainLoop e); [apply keeps_at_mainLoop|apply keeps_ret].
Qed.

(** With a main loop, [close_mainLoop] closes its poller. *)
Lemma close_mainLoop_closes w :
  is_Some (mainLoop (st w)) ->
  CallPollerClose (-1) ∈ drop (length (log w)) (log (snd (close_mainLoop w))).
Proof.
  intros [el Hml]. unfold close_mainLoop, bind at 1, get. simpl. rewrite Hml.
  unfold at_mainLoop. rewrite Hml. unfold bind, ext. simpl.
  destruct (on_poller (Poller_Close (tick w)) el) as [[err|] el']; simpl;
    rewrite <- ?app_assoc, drop_app_length; rewrite list_elem_of_In; simpl; auto.
Qed.

(** Every registered loop's poller is closed by [closeEventLoops]. *)
Lemma closeEventLoops_from n :
  forall i0 w, (i0 + n = length (lb (st w)))%nat ->
  forall j, (i0 <= j < i0 + n)%nat ->
  CallPollerClose (Z.of_nat j)
    ∈ drop (length (log w))
        (log (snd (iterate_from n i0
                     (fun i => let* _ := ext (CallPollerClose i)
                                           (fun t => on_poller (Poller_Close t)) in
                               ret true) w))).
Proof.
  induction n as [|n IH]; intros i0 w Hlen j Hj; [lia|].
  simpl. unfold bind at 1.
  destruct (lookup_lt_is_Some_2 (lb (st w)) i0 ltac:(lia)) as [el Hel].
  unfold at_loop at 1. rewrite Hel.
  unfold bind at 1, ext at 1. simpl.
  destruct (on_poller (Poller_Close (tick w)) el) as [r el']. simpl.
  match goal with |- context [iterate_from n (S i0) ?fn ?w1] =>
    set (f := fn); set (w1' := w1) end.
  assert (Happ : appends after_join (iterate_from n (S i0) f)).
  { apply appends_iterate_from. intros i.
    apply appends_bind; [apply appends_ext; exact I|]. intros _. apply appends_ret. }
  destruct (Happ w1') as (l' & E & _).
  assert (Hdrop : drop (length (log w)) (log (snd (iterate_from n (S i0) f w1')))
                  = CallPollerClose (Z.of_nat i0) :: l').
  { rewrite E. subst w1'. simpl. rewrite <- app_assoc, drop_app_length. reflexivity. }
  rewrite Hdrop.
  destruct (decide (j = i0)) as [->|Hne]; [left|].
  right.
  specialize (IH (S i0) w1').
  assert (Hlen' : (S i0 + n = length (lb (st w1')))%nat).
  { subst w1'. simpl. rewrite length_insert. lia. }
  specialize (IH Hlen' j ltac:(lia)).
  fold f in IH. rewrite E in IH. rewrite drop_app_length in IH. exact IH.
Qed.

Lemma closeEventLoops_closes_all w j :
  (j < length (lb (st w)))%nat ->
  CallPollerClose (Z.of_nat j)
    ∈ drop (length (log w)) (log (snd (closeEventLoops w))).
Proof.
  intros Hj. unfold closeEventLoops, iterate, bind at 1, get. simpl.
  apply closeEventLoops_from; lia.
Qed.

Lemma stop_close_appends : appends after_join stop_close.
Proof.
  unfold stop_close.
  apply appends_bind; [apply closeEventLoops_appends|]. intros _.
  apply appends_bind; [apply close_mainLoop_appends|]. intros _.
  apply appends_bind; [apply appends_get|]. intros e.
  destruct (Ticker (opts e)); [apply appends_emit; exact I|apply appends_ret].
Qed.

(** What [stop_close] adds to the trace contains the close of every loop's
    poller and, with the [Ticker] option, the cancellation of the ticker. *)
Lemma stop_close_complete w :
  let added := drop (length (log w)) (log (snd (stop_close w))) in
  (forall j, (j < length (lb (st w)))%nat -> CallPollerClose (Z.of_nat j) ∈ added)
  /\ (is_Some (mainLoop (st w)) -> CallPollerClose (-1) ∈ added)
  /\ (Ticker (opts (st w)) = true -> CallCancelTicker ∈ added).
Proof.
  intros added. subst added. unfold stop_close, bind, get.
  pose proof (closeEventLoops_closes_all w) as Hall.
  destruct (closeEventLoops_appends w) as (l1 & E1 & _).
  pose proof (keeps_iterate (fun i => let* _ := ext (CallPollerClose i)
                 (fun t => on_poller (Poller_Close t)) in ret true) w) as (_ & K1 & M1).
  fold closeEventLoops in K1, M1.
  destruct (closeEventLoops w) as [[] w1]. simpl in *.
  pose proof (close_mainLoop_closes w1) as Hmain.
  destruct (close_mainLoop_appends w1) as (l2 & E2 & _).
  pose proof (close_mainLoop_keeps w1) as (_ & K2 & _).
  destruct (close_mainLoop w1) as [[] w2]. simpl in *.
  rewrite E2, drop_app_length in Hmain.
  rewrite K2, K1.
  split; [|split].
  - intros j Hj. specialize (Hall j Hj).
    rewrite E1, drop_app_length in Hall.
    destruct (Ticker (opts (st w))); simpl; rewrite E2, E1, <- ?app_assoc, drop_app_length;
      rewrite !elem_of_app; auto.
  - intros Hml. apply M1 in Hml. specialize (Hmain Hml).
    destruct (Ticker (opts (st w))); simpl; rewrite E2, E1, <- ?app_assoc, drop_app_length;
      rewrite !elem_of_app; auto.
  - intros ->. simpl. rewrite E2, E1, <- !app_assoc, drop_app_length.
    rewrite !elem_of_app. right. right. left.
Qed.


Lemma Forall_not_in (P : call -> Prop) (l : list call) (c : call) :
  Forall P l -> ~ P c -> c ∉ l.
Proof.
  intros HF HP Hin. rewrite Forall_forall in HF. apply HP, HF, Hin.
Qed.

(** C7. In [stop], the atomic store [inShutdown = 1] is the last step; the
    [wg.Wait()] join comes before it, and so do the close of every loop's
    poller (the main loop's too, when there is one) and, with the [Ticker]
    option, the cancellation of the ticker, all of which come after the
    join. There is no other store: at any point
    of [stop] at which the store has happened, the join has happened. *)
Theorem inShutdown_stored_after_join (s : Engine) (w : eworld) :
  exists before after,
    log (snd (stop s w)) =
      log w ++ before ++ [CallWgWait] ++ after ++ [CallStoreInShutdown 1]
    /\ (forall v, CallStoreInShutdown v ∉ before ++ [CallWgWait] ++ after)
    /\ (forall i, CallPollerClose i ∉ before)
    /\ (CallCancelTicker ∉ before)
    /\ (forall j, (j < length (lb (st w)))%nat -> CallPollerClose (Z.of_nat j) ∈ after)
    /\ (is_Some (mainLoop (st w)) -> CallPollerClose (-1) ∈ after)
    /\ (Ticker (opts (st w)) = true -> CallCancelTicker ∈ after)
    /\ isInShutdown (st (snd (stop s w))) = true
    /\ (forall p v,
          p `prefix_of` (before ++ [CallWgWait] ++ after ++ [CallStoreInShutdown 1]) ->
          CallStoreInShutdown v ∈ p -> CallWgWait ∈ p).
Proof.
  rewrite stop_blocks. unfold bind.
  destruct (stop_notify_appends w) as (before & EA & FA).
  pose proof (stop_notify_keeps w) as (KL & KO & KM).
  destruct (stop_notify w) as [[] wA]. simpl in EA, KL, KO, KM.
  unfold emit at 1. simpl.
  set (wW := mkWorld (st wA) (tick wA) (log wA ++ [CallWgWait])).
  destruct (stop_close_appends wW) as (after & EB & FB).
  pose proof (stop_close_complete wW) as (Hclose & Hmain & Hcancel).
  destruct (stop_close wW) as [[] wB]. simpl in EB, Hclose, Hmain, Hcancel.
  rewrite EB, drop_app_length in Hclose, Hmain, Hcancel.
  unfold atomic_StoreInt32_inShutdown. simpl.
  exists before, after.
  assert (Hstore : forall v, CallStoreInShutdown v ∉ before ++ [CallWgWait] ++ after).
  { intros v. rewrite !elem_of_app. intros [Hin|[Hin|Hin]].
    - revert Hin. apply (Forall_not_in before_join); auto.
    - apply list_elem_of_singleton in Hin. discriminate.
    - revert Hin. apply (Forall_not_in after_join); auto. }
  split; [|split; [|split; [|split; [|split; [|split; [|split; [|split]]]]]]].
  - rewrite EB. subst wW. simpl. rewrite EA, <- !app_assoc. reflexivity.
  - exact Hstore.
  - intros i. apply (Forall_not_in before_join); auto.
  - apply (Forall_not_in before_join); auto.
  - intros j Hj. apply Hclose. subst wW. simpl. lia.
  - intros Hml. apply Hmain. subst wW. simpl. apply KM, Hml.
  - intros Ht. apply Hcancel. subst wW. simpl. rewrite KO. exact Ht.
  - reflexivity.
  - intros p v [q Hq] Hin.
    destruct (list_elem_of_split _ _ Hin) as (p1 & p2 & ->).
    (* the store is the last entry, so [p] is the whole trace *)
    set (joined := before ++ [CallWgWait] ++ after) in *.
    assert (Hq' : joined ++ [CallStoreInShutdown 1]
                  = p1 ++ CallStoreInShutdown v :: (p2 ++ q)).
    { subst joined. rewrite <- !app_assoc in Hq. rewrite <- !app_assoc.
      simpl in *. exact Hq. }
    assert (Hwhole : p1 = joined).
    { destruct (decide (length p1 < length joined)%nat) as [Hlt|Hge].
      - exfalso.
        assert (Hv : (joined ++ [CallStoreInShutdown 1]) !! length p1
                     = Some (CallStoreInShutdown v)).
        { rewrite Hq'. rewrite lookup_app_r by lia.
          replace (length p1 - length p1)%nat with 0%nat by lia. reflexivity. }
        rewrite lookup_app_l in Hv by exact Hlt.
        apply (Hstore v). eapply list_elem_of_lookup_2. exact Hv.
      - assert (Hlen : length (joined ++ [CallStoreInShutdown 1])
                       = length (p1 ++ CallStoreInShutdown v :: (p2 ++ q)))
          by (rewrite Hq'; reflexivity).
        rewrite !length_app in Hlen. simpl in Hlen.
        assert (Hp1 : length p1 = length joined) by lia.
        apply (f_equal (take (length p1))) in Hq'.
        rewrite take_app_length in Hq'.
        rewrite Hp1, take_app_length in Hq'. symmetry. exact Hq'. }
    rewrite Hwhole. subst joined. rewrite !elem_of_app. left. right. left. left.
Qed.

End WithExternals.

(** [stop] on an engine with two loops and the ticker enabled: both pollers
    are closed and the ticker is cancelled between the join and the store. *)
Lemma inShutdown_stored_after_join_witness :
  let NP := Concrete.queue_poller 0 None in
  let e := mkEngine ∅ [Concrete.loop_with_conn; Concrete.loop_fd_reused]
             (mkOptions false true false 16 0) None 0 in
  let w := Concrete.world_of e in
  exists before after,
    log (snd (stop (mkHandle this_engine) w)) =
      before ++ [CallWgWait] ++ after ++ [CallStoreInShutdown 1]
    /\ (CallPollerClose 0 ∈ after) /\ (CallPollerClose 1 ∈ after)
    /\ (CallCancelTicker ∈ after).
Proof.
  intros NP e w.
  destruct (inShutdown_stored_after_join (NP := NP) (mkHandle this_engine) w)
    as (before & after & E & _ & _ & _ & Hclose & _ & Hcancel & _).
  exists before, after. split; [exact E|].
  split; [apply (Hclose 0%nat); simpl; lia|].
  split; [apply (Hclose 1%nat); simpl; lia|].
  apply Hcancel. reflexivity.
Defined.

End StopFacts.

(** ** The main reactor's accept *)

Module AcceptFacts.
Import Model External Loop Server.

Section WithExternals.
Context {NP : Netpoll} {SC : Syscalls}.

(** What [accept] added to the trace of [w]. *)
Abbreviation added m w := (drop (length (log w)) (log (snd (m w)))).

Ltac normalize_trace :=
  simpl; rewrite <- ?app_assoc; simpl; rewrite ?drop_app_length.

Ltac absurd_entry H :=
  rewrite list_elem_of_In in H; simpl in H; intuition discriminate.

Ltac register_entry H :=
  rewrite list_elem_of_In in H; simpl in H;
  repeat (destruct H as [H|H]; [try discriminate|]); [|destruct H];
  injection H as <- <- <-.

Lemma accept_on_register_failure ln fd (w : sworld) i c e :
  CallRegisterTrigger i c (Some e) ∈ added (accept_on ln fd) w ->
  fst (accept_on ln fd w) = Returned None
  /\ exists l nfd sa,
       added (accept_on ln fd) w =
         l ++ [CallNewTCPConn nfd i c; CallRegisterTrigger i c (Some e);
               CallUnixClose nfd; CallReleaseTCP c]
       /\ CallUnixAccept fd (inr (nfd, sa)) ∈ l.
Proof.
  unfold accept_on, bind, ext_res, emit, get, ret. simpl.
  destruct (unix_Accept (tick w) fd) as [err|[nfd sa]]; simpl.
  { destruct (bool_decide (err = EAGAIN)); normalize_trace; intros H; absurd_entry H. }
  destruct (unix_SetNonblock (S (tick w)) nfd) as [nb|]; simpl.
  { normalize_trace. intros H. absurd_entry H. }
  destruct (bool_decide (0 < TCPKeepAlive (svr_opts (st w)))
            && bool_decide (ln_network ln = "tcp")); simpl;
    unfold register_on; simpl.
  - match goal with |- context [svr_lb (st w) !! ?k] => set (i0 := k) end.
    match goal with |- context [CallNewTCPConn nfd i0 ?k] => set (c0 := k) end.
    destruct (svr_lb (st w) !! i0) as [el|]; simpl.
    + destruct (on_poller _ el) as [[e0|] el']; normalize_trace; intros H.
      * register_entry H.
        split; [reflexivity|].
        eexists [_; _; _; _; _], nfd, sa. split; [reflexivity|].
        rewrite list_elem_of_In. simpl. auto.
      * absurd_entry H.
    + normalize_trace. intros H. absurd_entry H.
  - match goal with |- context [svr_lb (st w) !! ?k] => set (i0 := k) end.
    match goal with |- context [CallNewTCPConn nfd i0 ?k] => set (c0 := k) end.
    destruct (svr_lb (st w) !! i0) as [el|]; simpl.
    + destruct (on_poller _ el) as [[e0|] el']; normalize_trace; intros H.
      * register_entry H.
        split; [reflexivity|].
        eexists [_; _; _], nfd, sa. split; [reflexivity|].
        rewrite list_elem_of_In. simpl. auto.
      * absurd_entry H.
    + normalize_trace. intros H. absurd_entry H.
Qed.


Lemma accept_range_cases l fd (w : sworld) :
  (exists ln, ln ∈ l /\ fd = ln_fd ln /\ accept_range l fd w = accept_on ln fd w)
  \/ accept_range l fd w = (Returned None, w).
Proof.
  induction l as [|ln rest IH]; simpl; [right; reflexivity|].
  destruct (decide (fd = ln_fd ln)) as [Heq|Hne].
  - rewrite bool_decide_eq_true_2 by assumption.
    left. exists ln. split; [left|]. auto.
  - rewrite bool_decide_eq_false_2 by assumption.
    destruct IH as [(ln' & Hin & Hfd & E)|E]; [left|right; exact E].
    exists ln'. split; [right; exact Hin|]. auto.
Qed.

(** C9. In the main reactor's [accept], when handing the new connection to
    the chosen sub-loop fails ([UrgentTrigger(el.register, c)] returns an
    error), the last things [accept] does are to close the fd it has just
    accepted and to release the connection it has just created for it, and
    it returns nil. *)
Theorem accept_register_failure_closes (fd : Z) (w : sworld) i c e :
  CallRegisterTrigger i c (Some e) ∈ added (accept fd) w ->
  fst (accept fd w) = Returned None
  /\ exists l nfd sa,
       added (accept fd) w =
         l ++ [CallNewTCPConn nfd i c; CallRegisterTrigger i c (Some e);
               CallUnixClose nfd; CallReleaseTCP c]
       /\ CallUnixAccept fd (inr (nfd, sa)) ∈ l.
Proof.
  unfold accept, bind, get. simpl.
  destruct (accept_range_cases (lns (st w)) fd w) as [(ln & _ & _ & E)|E];
    rewrite E.
  - apply accept_on_register_failure.
  - simpl. rewrite drop_all. intros H. apply elem_of_nil in H. destruct H.
Qed.

End WithExternals.

(** A server listening on fd 3 whose only sub-loop refuses triggers: the
    accepted fd 50 is closed, its connection released, and [accept] returns
    nil. *)
Lemma accept_register_failure_closes_witness :
  let NP := Concrete.refusing_poller in
  let SC := Concrete.peer_syscalls in
  let w := Concrete.world_of
             (mkServer [Concrete.tcp_listener] [Concrete.loop_with_conn]
                       Concrete.no_options) in
  let c := mkConn 50 1 false [] in
  log (snd (accept 3 w)) =
    [CallUnixAccept 3 (inr (50, "10.0.0.9:4242")); CallSetNonblock 50 None;
     CallLbNext "10.0.0.9:4242" 0; CallNewTCPConn 50 0 c;
     CallRegisterTrigger 0 c (Some Concrete.EBADF);
     CallUnixClose 50; CallReleaseTCP c]
  /\ fst (accept 3 w) = Returned None.
Proof.
  intros NP SC w c.
  assert (E : log (snd (accept 3 w)) =
    [CallUnixAccept 3 (inr (50, "10.0.0.9:4242")); CallSetNonblock 50 None;
     CallLbNext "10.0.0.9:4242" 0; CallNewTCPConn 50 0 c;
     CallRegisterTrigger 0 c (Some Concrete.EBADF);
     CallUnixClose 50; CallReleaseTCP c]) by (vm_compute; reflexivity).
  split; [exact E|].
  apply (accept_register_failure_closes (NP := NP) (SC := SC) 3 w 0 c Concrete.EBADF).
  rewrite E. change (length (log w)) with 0%nat. rewrite drop_0.
  rewrite list_elem_of_In. simpl. auto 10.
Defined.

End AcceptFacts.

(** ** More on the codec, the handle, start, stop, accept and the loops *)

Module CodecMoreFacts.
Import MachineInt ConnIdCodec.

(** The decoded fields as quotients and remainders. *)
Lemma decode_elidx_div c : decode_elidx c = (c / 2 ^ 48) mod 2 ^ 16.
Proof.
  unfold decode_elidx. change 0xffff with (Z.ones 16).
  rewrite Z.land_ones, Z.shiftr_div_pow2 by lia. reflexivity.
Qed.

Lemma decode_id_div c : decode_id c = (c / 2 ^ 32) mod 2 ^ 16.
Proof.
  unfold decode_id, uint16. change 0xffff with (Z.ones 16).
  rewrite Z.land_ones, Z.shiftr_div_pow2 by lia.
  apply Z.mod_mod. lia.
Qed.

Lemma decode_fd_mod c : decode_fd c = c mod 2 ^ 32.
Proof.
  unfold decode_fd. change 0xffffffff with (Z.ones 32).
  apply Z.land_ones. lia.
Qed.

(** X1. Whatever the connId, negative ones included, the decoded loop index
    and generation id lie in [0, 2^16) and the decoded fd in [0, 2^32). *)
Theorem decode_fields_in_range (connId : Z) :
  0 <= decode_elidx connId < 2 ^ 16
  /\ 0 <= decode_id connId < 2 ^ 16
  /\ 0 <= decode_fd connId < 2 ^ 32.
Proof.
  rewrite decode_elidx_div, decode_id_div, decode_fd_mod.
  repeat split; apply Z.mod_pos_bound; lia.
Qed.

(** X2. The decoding loses nothing of an [int64]: two connIds that decode to
    the same loop index, generation id and fd are the same connId. *)
Theorem decode_injective (c1 c2 : Z) :
  in_int64 c1 -> in_int64 c2 -> decode c1 = decode c2 -> c1 = c2.
Proof.
  unfold in_int64, decode. intros H1 H2 [= He Hi Hf].
  rewrite !decode_elidx_div in He. rewrite !decode_id_div in Hi.
  rewrite !decode_fd_mod in Hf.
  assert (Hq : c1 / 2 ^ 48 = c2 / 2 ^ 48).
  { assert (- 2 ^ 15 <= c1 / 2 ^ 48 < 2 ^ 15)
      by (split; [apply Z.div_le_lower_bound|apply Z.div_lt_upper_bound]; lia).
    assert (- 2 ^ 15 <= c2 / 2 ^ 48 < 2 ^ 15)
      by (split; [apply Z.div_le_lower_bound|apply Z.div_lt_upper_bound]; lia).
    remember (c1 / 2 ^ 48) as q1 eqn:E1. remember (c2 / 2 ^ 48) as q2 eqn:E2.
    clear E1 E2 H1 H2 Hi Hf.
    change (2 ^ 16) with 65536 in He. change (2 ^ 15) with 32768 in *.
    Z.div_mod_to_equations. lia. }
  assert (Hp : c1 / 2 ^ 32 = c2 / 2 ^ 32).
  { rewrite (Z.div_mod (c1 / 2 ^ 32) (2 ^ 16)), (Z.div_mod (c2 / 2 ^ 32) (2 ^ 16)) by lia.
    rewrite !Z.div_div by lia. change (2 ^ 32 * 2 ^ 16) with (2 ^ 48).
    rewrite Hq, Hi. reflexivity. }
  rewrite (Z.div_mod c1 (2 ^ 32)), (Z.div_mod c2 (2 ^ 32)) by lia.
  rewrite Hp, Hf. reflexivity.
Qed.

Lemma decode_injective_witness :
  (in_int64 (-1) /\ in_int64 (-1))
  /\ decode (-1) = (65535, 65535, 4294967295)
  /\ (decode (-1) = decode (-1) -> -1 = -1).
Proof.
  split; [split; unfold in_int64; lia|]. split; [reflexivity|].
  apply (decode_injective (-1) (-1)); unfold in_int64; lia.
Defined.

End CodecMoreFacts.

Module HandleFacts.
Import Model External ConnIdCodec Loop Eng HandleFrame.

Section WithExternals.
Context {NP : Netpoll} {RT : Runtime}.

(** The callback the handle passes to [iterate]. *)
Abbreviation trigger_at k t :=
  (fun i : Z =>
     if bool_decide (i = k) then
       let* _ := ext (CallTrigger i HighPriority t)
                     (fun tk => on_poller (Poller_Trigger tk HighPriority t)) in
       ret false
     else ret true).

(** The loop after [el.poller.Trigger(HighPriority, t, nil)] at clock [tk]. *)
Abbreviation triggered tk t el :=
  (snd (on_poller (Poller_Trigger tk HighPriority t) el)).

Lemma set_lb_same (e : engine) : set_lb (lb e) e = e.
Proof. destruct e. reflexivity. Qed.

Lemma world_eta {St} (w : World St) : mkWorld (st w) (tick w) (log w) = w.
Proof. destruct w. reflexivity. Qed.

Lemma on_poller_keeps {A} (f : poller -> A * poller) el :
  let el' := snd (on_poller f el) in
  idx el' = idx el /\ el_listeners el' = el_listeners el
  /\ buffer el' = buffer el /\ connections el' = connections el.
Proof. unfold on_poller. destruct (f (el_poller el)). simpl. auto. Qed.

(** The world [iterate] leaves when the callback triggers [t] on position
    [k]: the poller of that loop has taken the trigger, one call is in the
    trace; with no such position nothing has changed. *)
Lemma trigger_at_world n :
  forall (i : nat) (w : eworld) k t,
    (i + n = length (lb (st w)))%nat ->
    snd (iterate_from n i (trigger_at k t) w) =
    match (if bool_decide (Z.of_nat i <= k) then lb (st w) !! Z.to_nat k else None) with
    | Some el =>
        mkWorld (set_lb (<[Z.to_nat k := triggered (tick w) t el]> (lb (st w))) (st w))
                (S (tick w)) (log w ++ [CallTrigger k HighPriority t])
    | None => w
    end.
Proof.
  induction n as [|n IH]; intros i w k t Hlen.
  - simpl. destruct (bool_decide (Z.of_nat i <= k)) eqn:Hk; [|reflexivity].
    apply bool_decide_eq_true in Hk.
    rewrite lookup_ge_None_2 by lia. reflexivity.
  - simpl. unfold bind at 1.
    destruct (lookup_lt_is_Some_2 (lb (st w)) i ltac:(lia)) as [el Hel].
    unfold at_loop. rewrite Hel.
    destruct (decide (Z.of_nat i = k)) as [<-|Hne].
    + rewrite !bool_decide_eq_true_2 by lia.
      rewrite Nat2Z.id, Hel.
      unfold bind, ext. simpl.
      destruct (on_poller _ el) as [r el']. reflexivity.
    + rewrite bool_decide_eq_false_2 by assumption. simpl.
      rewrite list_insert_id by exact Hel.
      rewrite set_lb_same, world_eta.
      rewrite IH by lia.
      destruct (decide (Z.of_nat i <= k)) as [Hle|Hgt].
      * rewrite !bool_decide_eq_true_2 by lia. reflexivity.
      * rewrite !bool_decide_eq_false_2 by lia. reflexivity.
Qed.

Lemma trigger_at_iterate (w : eworld) k t :
  0 <= k ->
  snd (iterate (trigger_at k t) w) =
  match lb (st w) !! Z.to_nat k with
  | Some el =>
      mkWorld (set_lb (<[Z.to_nat k := triggered (tick w) t el]> (lb (st w))) (st w))
              (S (tick w)) (log w ++ [CallTrigger k HighPriority t])
  | None => w
  end.
Proof.
  intros Hk. unfold iterate, bind at 1, get. cbv beta iota zeta.
  rewrite (trigger_at_world (length (lb (st w))) 0 w k t eq_refl).
  rewrite bool_decide_eq_true_2 by (simpl; lia). reflexivity.
Qed.

(** The world a live handle leaves. *)
Lemma Engine_AsyncWrite_world e connId data (w : eworld) :
  eng e <> nil_engine ->
  Engine_AsyncWrite e connId data w =
  (None, snd (iterate (trigger_at (decode_elidx connId)
                         (TaskAsyncWrite (decode_id connId) (decode_fd connId) data)) w)).
Proof.
  intros He. unfold Engine_AsyncWrite. destruct (eng e); [congruence|].
  unfold bind. destruct (iterate _ w) as [[] w1]. reflexivity.
Qed.

Lemma Engine_Trigger_world e connId cb (w : eworld) :
  eng e <> nil_engine ->
  Engine_Trigger e connId (Some cb) w =
  (tt, snd (iterate (trigger_at (decode_elidx connId)
                       (TaskTrigger (decode_id connId) (decode_fd connId) cb)) w)).
Proof.
  intros He. unfold Engine_Trigger. destruct (eng e); [congruence|].
  destruct (iterate _ w) as [[] w1]. reflexivity.
Qed.


Lemma only_poller_changed_refl k e : only_poller_changed k e e.
Proof. repeat split; auto. intros j el Hel. exists el. auto 10. Qed.

Lemma trigger_at_frame (w : eworld) k t :
  0 <= k -> only_poller_changed k (st w) (st (snd (iterate (trigger_at k t) w))).
Proof.
  intros Hk. rewrite trigger_at_iterate by assumption.
  destruct (lb (st w) !! Z.to_nat k) as [el|] eqn:Hel;
    [|apply only_poller_changed_refl].
  simpl. repeat split; simpl; auto using length_insert.
  intros j el0 Hj.
  destruct (decide (j = Z.to_nat k)) as [->|Hne].
  - exists (triggered (tick w) t el).
    rewrite list_lookup_insert_eq by (eapply lookup_lt_Some; exact Hel).
    assert (el0 = el) as -> by congruence.
    destruct (on_poller_keeps (Poller_Trigger (tick w) HighPriority t) el)
      as (? & ? & ? & ?).
    repeat split; auto. intros Hne. exfalso. apply Hne. lia.
  - exists el0. rewrite list_lookup_insert_ne by auto. auto 10.
Qed.

(** X3. [Engine.AsyncWrite] and [Engine.Trigger] change nothing of the
    engine but the poller of the loop the connId names: every other loop is
    left as it was, and of the named loop the idx, the listeners, the buffer
    and the connections map are left as they were. The calling thread never
    touches a connection. *)
Theorem handle_touches_only_target_poller
    (e : Engine) (connId : Z) (data : bytes) (cb : option funcval) (w : eworld) :
  only_poller_changed (decode_elidx connId) (st w)
    (st (snd (Engine_AsyncWrite e connId data w)))
  /\ only_poller_changed (decode_elidx connId) (st w)
       (st (snd (Engine_Trigger e connId cb w))).
Proof.
  assert (Hk : 0 <= decode_elidx connId).
  { unfold decode_elidx. change 0xffff with (Z.ones 16).
    rewrite Z.land_ones by lia. apply Z.mod_pos_bound. lia. }
  split.
  - destruct (eng e) eqn:He.
    + unfold Engine_AsyncWrite. rewrite He. apply only_poller_changed_refl.
    + rewrite Engine_AsyncWrite_world by congruence. simpl.
      apply trigger_at_frame, Hk.
  - destruct (eng e) eqn:He.
    + unfold Engine_Trigger. rewrite He. apply only_poller_changed_refl.
    + destruct cb as [cb|].
      * rewrite Engine_Trigger_world by congruence. simpl.
        apply trigger_at_frame, Hk.
      * unfold Engine_Trigger. rewrite He. apply only_poller_changed_refl.
Qed.

(** X4. A connId whose loop index is beyond the registered loops is dropped
    without a trace: on a live handle [AsyncWrite] returns nil, [Trigger]
    returns, and engine, clock and trace are what they were. *)
Theorem handle_unknown_loop_dropped
    (e : Engine) (connId : Z) (data : bytes) (cb : option funcval) (w : eworld) :
  eng e <> nil_engine ->
  Z.of_nat (length (lb (st w))) <= decode_elidx connId ->
  Engine_AsyncWrite e connId data w = (None, w)
  /\ Engine_Trigger e connId cb w = (tt, w).
Proof.
  intros He Hk.
  assert (Hnone : lb (st w) !! Z.to_nat (decode_elidx connId) = None)
    by (apply lookup_ge_None_2; lia).
  split.
  - rewrite Engine_AsyncWrite_world by assumption.
    rewrite trigger_at_iterate by lia. rewrite Hnone. reflexivity.
  - destruct cb as [cb|].
    + rewrite Engine_Trigger_world by assumption.
      rewrite trigger_at_iterate by lia. rewrite Hnone. reflexivity.
    + unfold Engine_Trigger. destruct (eng e); reflexivity.
Qed.

(** X5. On a live handle, a connId that names a registered loop makes
    [AsyncWrite] (resp. [Trigger] with a callback) call [poller.Trigger]
    once, on that loop's poller, with high priority and the closure over
    the decoded id and fd; what [Trigger] returns is dropped and
    [AsyncWrite] returns nil. *)
Theorem handle_enqueues_on_named_loop
    (e : Engine) (connId : Z) (data : bytes) (cb : funcval) (w : eworld) (el : eventloop) :
  eng e <> nil_engine ->
  lb (st w) !! Z.to_nat (decode_elidx connId) = Some el ->
  let k := decode_elidx connId in
  let enqueued t :=
    mkWorld (set_lb (<[Z.to_nat k := triggered (tick w) t el]> (lb (st w))) (st w))
            (S (tick w)) (log w ++ [CallTrigger k HighPriority t]) in
  Engine_AsyncWrite e connId data w =
    (None, enqueued (TaskAsyncWrite (decode_id connId) (decode_fd connId) data))
  /\ Engine_Trigger e connId (Some cb) w =
       (tt, enqueued (TaskTrigger (decode_id connId) (decode_fd connId) cb)).
Proof.
  intros He Hel k enqueued. subst k enqueued.
  assert (Hk : 0 <= decode_elidx connId).
  { unfold decode_elidx. change 0xffff with (Z.ones 16).
    rewrite Z.land_ones by lia. apply Z.mod_pos_bound. lia. }
  split.
  - rewrite Engine_AsyncWrite_world by assumption.
    rewrite trigger_at_iterate by lia. rewrite Hel. reflexivity.
  - rewrite Engine_Trigger_world by assumption.
    rewrite trigger_at_iterate by lia. rewrite Hel. reflexivity.
Qed.

End WithExternals.

(** The connId (loop 1, generation 3, fd 7) on an engine of two loops: the
    first loop is left alone and the connection stays in the second. *)
Lemma handle_touches_only_target_poller_witness :
  let NP := Concrete.queue_poller 0 None in
  let w := Concrete.world_of two_loop_engine in
  let w' := snd (Engine_AsyncWrite (mkHandle this_engine) 0x0001000300000007 [] w) in
  lb (st w') !! 0%nat = lb (st w) !! 0%nat
  /\ (exists el', lb (st w') !! 1%nat = Some el'
                  /\ connections el' = {[7 := mkConn 7 3 true []]}).
Proof.
  intros NP w w'.
  destruct (handle_touches_only_target_poller (NP := NP) (mkHandle this_engine)
              0x0001000300000007 [] None w) as [(_ & _ & _ & _ & _ & Hloops) _].
  fold w' in Hloops. split.
  - destruct (Hloops 0%nat _ eq_refl) as (el' & -> & _ & _ & _ & _ & Hsame).
    rewrite Hsame; [reflexivity|]. vm_compute. discriminate.
  - destruct (Hloops 1%nat _ eq_refl) as (el' & Hl & _ & _ & _ & Hc & _).
    exists el'. split; [exact Hl|exact Hc].
Defined.

(** Loop index 5 on an engine of two loops. *)
Lemma handle_unknown_loop_dropped_witness :
  let NP := Concrete.queue_poller 0 None in
  let w := Concrete.world_of two_loop_engine in
  Engine_AsyncWrite (mkHandle this_engine) 0x0005000300000007 [Byte.x5a] w = (None, w)
  /\ Engine_Trigger (mkHandle this_engine) 0x0005000300000007 (Some 1%N) w = (tt, w).
Proof.
  intros NP w.
  apply (handle_unknown_loop_dropped (NP := NP)); [discriminate|].
  vm_compute. discriminate.
Defined.

Lemma handle_enqueues_on_named_loop_witness :
  let NP := Concrete.queue_poller 0 None in
  let w := Concrete.world_of two_loop_engine in
  log (snd (Engine_AsyncWrite (mkHandle this_engine) 0x0001000300000007 [Byte.x5a] w))
  = [CallTrigger 1 HighPriority (TaskAsyncWrite 3 7 [Byte.x5a])].
Proof.
  intros NP w.
  destruct (handle_enqueues_on_named_loop (NP := NP) (mkHandle this_engine)
              0x0001000300000007 [Byte.x5a] 0%N w
              (mkEventloop 1 ∅ Concrete.empty_poller [] {[7 := mkConn 7 3 true []]}))
    as [Hw _]; [discriminate|reflexivity|].
  rewrite Hw. reflexivity.
Defined.

End HandleFacts.

Module StartFacts.
Import Model External ConnIdCodec Loop Eng StartTrace.
Import StopFacts EngineFacts HandleFacts.

Section WithExternals.
Context {NP : Netpoll} {RT : Runtime}.

(** *** Spawning the loops *)

Abbreviation spawn g :=
  (fun i : Z => let* _ := emit CallWgAdd in
                let* _ := emit (CallGo (g i)) in
                ret true).

Lemma spawn_from (g : Z -> goroutine) n :
  forall (i : nat) (w : eworld),
    (i + n = length (lb (st w)))%nat ->
    iterate_from n i (spawn g) w =
    (tt, mkWorld (st w) (tick w) (log w ++ spawned g i n)).
Proof.
  induction n as [|n IH]; intros i w Hlen.
  - simpl. unfold ret, spawned. simpl. rewrite app_nil_r, world_eta. reflexivity.
  - simpl. unfold bind at 1.
    destruct (lookup_lt_is_Some_2 (lb (st w)) i ltac:(lia)) as [el Hel].
    unfold at_loop. rewrite Hel.
    unfold bind, emit, ret. simpl.
    rewrite list_insert_id by exact Hel. rewrite set_lb_same.
    fold (bind (A := bool) (B := unit) (W := eworld)).
    change (iterate_from n (S i) (spawn g)
              (mkWorld (st w) (tick w) ((log w ++ [CallWgAdd]) ++ [CallGo (g (Z.of_nat i))])) =
            (tt, mkWorld (st w) (tick w) (log w ++ spawned g i (S n)))).
    rewrite IH by (simpl; lia). simpl.
    unfold spawned. simpl. rewrite <- !app_assoc. reflexivity.
Qed.

Lemma startEventLoops_world (w : eworld) :
  startEventLoops w =
  (tt, mkWorld (st w) (tick w) (log w ++ spawned GoRun 0 (length (lb (st w))))).
Proof.
  unfold startEventLoops, iterate, bind at 1, get. cbv beta iota zeta.
  apply spawn_from. reflexivity.
Qed.

Lemma startSubReactors_world (w : eworld) :
  startSubReactors w =
  (tt, mkWorld (st w) (tick w) (log w ++ spawned GoSubReactor 0 (length (lb (st w))))).
Proof.
  unfold startSubReactors, iterate, bind at 1, get. cbv beta iota zeta.
  apply spawn_from. reflexivity.
Qed.


(** *** The loop of [activateEventLoops] *)

Lemma appends_put {St} (P : call -> Prop) (s : St) : appends P (put s).
Proof. intros w. exists []. simpl. rewrite app_nil_r. auto. Qed.

Lemma appends_range (P : call -> Prop) m : appends P (range m).
Proof. intros w. exists []. simpl. rewrite app_nil_r. auto. Qed.

Lemma appends_rebind (o : Options) visit :
  forall ls, appends not_go (rebind_listeners o visit ls).
Proof.
  induction visit as [|[k ln] rest IH]; intros ls; simpl; [apply appends_ret|].
  apply appends_bind; [apply appends_ext; exact I|].
  intros [err|ln']; [apply appends_ret|apply IH].
Qed.

Lemma appends_addRead visit :
  forall el, appends not_go (addRead_listeners visit el).
Proof.
  induction visit as [|[k ln] rest IH]; intros el; simpl; [apply appends_ret|].
  apply appends_bind; [apply appends_ext; exact I|].
  intros [[err|] el']; [apply appends_ret|apply IH].
Qed.

Lemma appends_register el : appends not_go (register el).
Proof.
  unfold register.
  apply appends_bind; [apply appends_get|]. intros e.
  apply appends_bind; [apply appends_emit; exact I|]. intros _.
  apply appends_bind; [apply appends_put|]. intros _. apply appends_ret.
Qed.

(** The loop spawns nothing. *)
Lemma appends_activateEventLoops_for n :
  forall i lns s, appends not_go (activateEventLoops_for n i lns s).
Proof.
  induction n as [|n IH]; intros i lns s; simpl; [apply appends_ret|].
  apply appends_bind; [apply appends_get|]. intros e.
  apply appends_bind.
  { destruct (bool_decide (0 < i)); [|apply appends_ret].
    apply appends_bind; [apply appends_range|]. intros v. apply appends_rebind. }
  intros [err|lns1]; [apply appends_ret|].
  apply appends_bind; [apply appends_ext; exact I|].
  intros [err|p]; [apply appends_ret|].
  apply appends_bind; [apply appends_range|]. intros v.
  apply appends_bind; [apply appends_addRead|].
  intros [[err|] el]; [apply appends_ret|].
  apply appends_bind; [apply appends_register|]. intros k. apply IH.
Qed.

Lemma rebind_keyed (o : Options) visit :
  forall ls (w : eworld) m,
    keyed_by_fd ls ->
    fst (rebind_listeners o visit ls w) = inr m -> keyed_by_fd m.
Proof.
  induction visit as [|[k ln] rest IH]; intros ls w m Hk; simpl.
  { unfold ret. simpl. intros [= <-]. exact Hk. }
  unfold bind, ext_pure, ext. simpl.
  destruct (initListener (tick w) (ln_network ln) (ln_address ln) o) as [err|ln'];
    [discriminate|].
  apply IH. intros fd l Hl.
  destruct (decide (fd = ln_fd ln')) as [->|Hne].
  - rewrite lookup_insert_eq in Hl. congruence.
  - rewrite lookup_insert_ne in Hl by auto. apply Hk, Hl.
Qed.

Lemma addRead_keeps visit :
  forall el (w : eworld),
    let el' := snd (fst (addRead_listeners visit el w)) in
    idx el' = idx el /\ el_listeners el' = el_listeners el
    /\ buffer el' = buffer el /\ connections el' = connections el.
Proof.
  induction visit as [|[k ln] rest IH]; intros el w; simpl; [auto|].
  unfold bind, ext_pure, ext. simpl.
  destruct (on_poller (Poller_AddRead (tick w) (ln_fd ln)) el) as [r el1] eqn:E.
  assert (K : idx el1 = idx el /\ el_listeners el1 = el_listeners el
              /\ buffer el1 = buffer el /\ connections el1 = connections el).
  { unfold on_poller in E. destruct (Poller_AddRead _ _ _) in E.
    injection E as _ <-. simpl. auto. }
  destruct r as [err|]; [exact K|].
  destruct K as (K1 & K2 & K3 & K4).
  match goal with |- context [addRead_listeners rest el1 ?w1] =>
    destruct (IH el1 w1) as (I1 & I2 & I3 & I4) end.
  rewrite I1, I2, I3, I4. auto.
Qed.

(** What the loop leaves: the loops it registered follow those that were
    there, with dense indices and empty connection maps; the first takes the
    listeners it was given when the loop starts at 0, the others hold
    re-bound listeners under their own descriptors; the rest of the engine
    is as it was. After an early return fewer than [n] loops were added. *)
Lemma register_run el (w : eworld) :
  register el w =
  (length (lb (st w)),
   mkWorld (set_lb (lb (st w)
                    ++ [mkEventloop (Z.of_nat (length (lb (st w)))) (el_listeners el)
                                    (el_poller el) (buffer el) (connections el)])
                   (st w))
           (tick w) (log w ++ [CallRegister (Z.of_nat (length (lb (st w))))])).
Proof. reflexivity. Qed.

Ltac no_new_loop :=
  repeat split; auto; try (simpl; lia);
  try match goal with
      | H : [] !! _ = Some _ |- _ => rewrite lookup_nil in H; discriminate
      end;
  try (intros ? ? Hnil; rewrite lookup_nil in Hnil; discriminate).

Lemma activateEventLoops_for_state n :
  forall i lns s (w : eworld) res w',
    0 <= i ->
    activateEventLoops_for n i lns s w = (res, w') ->
    exists new,
      lb (st w') = lb (st w) ++ new
      /\ listeners (st w') = listeners (st w)
      /\ opts (st w') = opts (st w)
      /\ mainLoop (st w') = mainLoop (st w)
      /\ inShutdown (st w') = inShutdown (st w)
      /\ fresh_workers (length (lb (st w))) new
      /\ (forall j el, new !! j = Some el ->
            (i + Z.of_nat j = 0 -> el_listeners el = lns)
            /\ (0 < i + Z.of_nat j -> keyed_by_fd (el_listeners el)))
      /\ match res with
         | inr _ => length new = n
         | inl _ => (length new < n)%nat
         end.
Proof.
  induction n as [|n IH]; intros i lns s w res w' Hi H; simpl in H.
  { injection H as <- <-. exists []. rewrite app_nil_r. no_new_loop. }
  unfold bind at 1, get at 1 in H. simpl in H.
  unfold bind at 1 in H.
  destruct ((if bool_decide (0 < i)
             then let* visit := range lns in rebind_listeners (opts (st w)) visit ∅
             else ret (inr lns)) w) as [r w1] eqn:E1.
  assert (S1 : st w1 = st w).
  { destruct (bool_decide (0 < i)).
    - unfold bind, range in E1. simpl in E1.
      pose proof (rebind_listeners_state (opts (st w))
                    (map_range (tick w) lns) ∅
                    (mkWorld (st w) (S (tick w)) (log w))) as Hs.
      rewrite E1 in Hs. exact Hs.
    - injection E1 as _ <-. reflexivity. }
  assert (L1 : forall m, r = inr m ->
                 (i = 0 -> m = lns) /\ (0 < i -> keyed_by_fd m)).
  { intros m ->. destruct (bool_decide (0 < i)) eqn:Hb.
    - apply bool_decide_eq_true in Hb. split; [lia|]. intros _.
      unfold bind, range in E1. simpl in E1.
      eapply (rebind_keyed _ _ ∅); [|rewrite E1; reflexivity].
      intros fd ln Hl. rewrite lookup_empty in Hl. discriminate.
    - apply bool_decide_eq_false in Hb. injection E1 as -> _.
      split; [reflexivity|lia]. }
  destruct r as [err|lns1].
  { injection H as <- <-. exists []. rewrite app_nil_r, S1. no_new_loop. }
  destruct (L1 lns1 eq_refl) as [L0 Lk]. clear L1.
  unfold bind at 1, ext_pure at 1, ext at 1 in H. simpl in H.
  destruct (OpenPoller (tick w1)) as [err|p].
  { injection H as <- <-. exists []. simpl. rewrite app_nil_r, S1. no_new_loop. }
  unfold bind at 1, range at 1 in H. simpl in H.
  unfold bind at 1 in H.
  match type of H with context [addRead_listeners ?v ?el ?w2] =>
    pose proof (addRead_listeners_state v el w2) as S2;
    pose proof (addRead_keeps v el w2) as K2;
    destruct (addRead_listeners v el w2) as [[[err|] el'] w3]
  end.
  { injection H as <- <-. simpl in *. exists []. rewrite app_nil_r, S2, S1. no_new_loop. }
  simpl in S2, K2. destruct K2 as (K21 & K22 & K23 & K24).
  unfold bind at 1 in H. rewrite register_run in H.
  apply IH in H; [|lia].
  destruct H as (new & Hlb & Hls & Ho & Hm & Hs & Hfresh & Hlns & Hlen).
  simpl in *. rewrite S2, S1 in Hlb, Hls, Ho, Hm, Hs, Hfresh.
  match type of Hlb with _ = (_ ++ [?e]) ++ _ => exists (e :: new) end.
  rewrite Hlb, Hls, Ho, Hm, Hs, <- app_assoc. simpl.
  split; [reflexivity|].
  split; [reflexivity|]. split; [reflexivity|].
  split; [reflexivity|]. split; [reflexivity|].
  split; [|split].
  - intros [|j] el Hj; simpl in Hj.
    + injection Hj as <-. simpl. split; [f_equal; lia|exact K24].
    + destruct (Hfresh j el Hj) as [Hidx Hc]. split; [|exact Hc].
      rewrite Hidx, length_app. simpl. f_equal. lia.
  - intros [|j] el Hj; simpl in Hj.
    + injection Hj as <-. simpl. rewrite K22. simpl.
      split; [intros; apply L0; lia|intros; apply Lk; lia].
    + split; [lia|]. intros Hpos. apply (Hlns j el Hj). lia.
  - destruct res; simpl; lia.
Qed.


(** [activateEventLoops] in terms of its loop. *)
Lemma activateEventLoops_unfold numEventLoop (w : eworld) :
  activateEventLoops numEventLoop w =
  let w0 := mkWorld (set_listeners ∅ (st w)) (tick w) (log w) in
  let '(r, w1) := activateEventLoops_for (Z.to_nat numEventLoop) 0 (listeners (st w)) None w0 in
  match r with
  | inl err => (Some err, w1)
  | inr striker =>
      (None, mkWorld (st w1) (tick w1)
               (log w1 ++ spawned GoRun 0 (length (lb (st w1)))
                  ++ [CallGo (GoTicker striker)]))
  end.
Proof.
  unfold activateEventLoops, bind at 1, get at 1. cbv beta iota zeta.
  unfold bind at 1, put at 1. cbv beta iota zeta.
  unfold bind at 1. simpl.
  destruct (activateEventLoops_for _ _ _ _ _) as [[err|striker] w1]; [reflexivity|].
  unfold bind at 1. rewrite startEventLoops_world.
  unfold bind, emit, ret. simpl. rewrite <- app_assoc. reflexivity.
Qed.


(** X7. When [activateEventLoops] returns an error, it has started nothing:
    no goroutine is spawned. Fewer than [numEventLoop] loops have been
    registered, and the engine's listener map is cleared all the same. *)
Theorem activateEventLoops_failure_starts_nothing
    (numEventLoop : Z) (w : eworld) (err : error) :
  fst (activateEventLoops numEventLoop w) = Some err ->
  let w' := snd (activateEventLoops numEventLoop w) in
  Forall not_go (drop (length (log w)) (log w'))
  /\ listeners (st w') = ∅
  /\ exists new, lb (st w') = lb (st w) ++ new
                 /\ (length new < Z.to_nat numEventLoop)%nat
                 /\ fresh_workers (length (lb (st w))) new.
Proof.
  rewrite activateEventLoops_unfold. cbv zeta.
  set (w0 := mkWorld (set_listeners ∅ (st w)) (tick w) (log w)).
  destruct (appends_activateEventLoops_for (Z.to_nat numEventLoop) 0
              (listeners (st w)) None w0) as (setup & Hlog & Hsetup).
  destruct (activateEventLoops_for _ _ _ _ w0) as [r w1] eqn:E.
  destruct (activateEventLoops_for_state _ 0 _ _ _ _ _ ltac:(lia) E)
    as (new & Hlb & Hls & _ & _ & _ & Hfresh & _ & Hlen).
  destruct r as [e|striker]; [|discriminate]. intros _. simpl in *.
  rewrite Hlog, drop_app_length. split; [exact Hsetup|].
  split; [exact Hls|]. exists new. auto.
Qed.


(** *** [activateReactors] *)

Lemma appends_activateReactors_for n : appends not_go (activateReactors_for n).
Proof.
  induction n as [|n IH]; simpl; [apply appends_ret|].
  apply appends_bind; [apply appends_ext; exact I|].
  intros [err|p]; [apply appends_ret|].
  apply appends_bind; [apply appends_get|]. intros e.
  apply appends_bind; [apply appends_register|]. intros k. apply IH.
Qed.

Lemma activateReactors_for_state n :
  forall (w : eworld) res w',
    activateReactors_for n w = (res, w') ->
    exists new,
      lb (st w') = lb (st w) ++ new
      /\ listeners (st w') = listeners (st w)
      /\ opts (st w') = opts (st w)
      /\ mainLoop (st w') = mainLoop (st w)
      /\ inShutdown (st w') = inShutdown (st w)
      /\ fresh_workers (length (lb (st w))) new
      /\ (forall j el, new !! j = Some el -> el_listeners el = listeners (st w))
      /\ match res with
         | None => length new = n
         | Some _ => (length new < n)%nat
         end.
Proof.
  induction n as [|n IH]; intros w res w' H; simpl in H.
  { injection H as <- <-. exists []. rewrite app_nil_r. no_new_loop. }
  unfold bind at 1, ext_pure at 1, ext at 1 in H. simpl in H.
  destruct (OpenPoller (tick w)) as [err|p].
  { injection H as <- <-. exists []. simpl. rewrite app_nil_r. no_new_loop. }
  unfold bind at 1, get at 1 in H. simpl in H.
  unfold bind at 1 in H. rewrite register_run in H.
  apply IH in H.
  destruct H as (new & Hlb & Hls & Ho & Hm & Hs & Hfresh & Hlns & Hlen).
  simpl in *.
  match type of Hlb with _ = (_ ++ [?e]) ++ _ => exists (e :: new) end.
  rewrite Hlb, Hls, Ho, Hm, Hs, <- app_assoc. simpl.
  split; [reflexivity|].
  split; [reflexivity|]. split; [reflexivity|].
  split; [reflexivity|]. split; [reflexivity|].
  split; [|split].
  - intros [|j] el Hj; simpl in Hj.
    + injection Hj as <-. simpl. split; [f_equal; lia|reflexivity].
    + destruct (Hfresh j el Hj) as [Hidx Hc]. split; [|exact Hc].
      rewrite Hidx, length_app. simpl. f_equal. lia.
  - intros [|j] el Hj; simpl in Hj.
    + injection Hj as <-. reflexivity.
    + apply (Hlns j el Hj).
  - destruct res; simpl; lia.
Qed.

(** The trace of starting the main reactor and, with the [Ticker] option,
    the ticker on it. *)
Lemma activateReactors_unfold numEventLoop (w : eworld) :
  activateReactors numEventLoop w =
  let '(r, w1) := activateReactors_for (Z.to_nat numEventLoop) w in
  match r with
  | Some err => (Some err, w1)
  | None =>
      let l2 := log w1 ++ spawned GoSubReactor 0 (length (lb (st w1)))
                  ++ [CallOpenPoller] in
      match OpenPoller (tick w1) with
      | inl err => (Some err, mkWorld (st w1) (S (tick w1)) l2)
      | inr p =>
          let '(ra, w4) :=
            addRead_listeners (map_range (S (tick w1)) (listeners (st w1)))
              (mkEventloop (-1) (listeners (st w1)) p [] ∅)
              (mkWorld (st w1) (S (S (tick w1))) l2) in
          match ra with
          | (Some err, _) => (Some err, w4)
          | (None, el) =>
              (None, mkWorld (set_mainLoop (Some el) (st w4)) (tick w4)
                       (log w4 ++ main_started (Ticker (opts (st w4)))))
          end
      end
  end.
Proof.
  unfold activateReactors, bind at 1.
  destruct (activateReactors_for _ w) as [[err|] w1]; [reflexivity|].
  unfold bind at 1. rewrite startSubReactors_world.
  unfold bind at 1, ext_pure at 1, ext at 1. simpl.
  rewrite <- app_assoc.
  destruct (OpenPoller (tick w1)) as [err|p]; [reflexivity|].
  unfold bind at 1, get at 1. simpl.
  unfold bind at 1, range at 1. simpl.
  unfold bind at 1.
  destruct (addRead_listeners _ _ _) as [[[err|] el] w4]; [reflexivity|].
  unfold bind, get, put, emit, ret, main_started. simpl.
  destruct (Ticker (opts (st w4))); simpl; rewrite <- !app_assoc; reflexivity.
Qed.


(** X9. When [activateReactors] returns an error, no main loop is set and
    neither the main reactor nor the ticker is started. Either fewer than
    [numEventLoop] workers were registered and nothing was started, or all
    of them were, and then their sub-reactors are already running. *)
Theorem activateReactors_failure (numEventLoop : Z) (w : eworld) (err : error) :
  fst (activateReactors numEventLoop w) = Some err ->
  let w' := snd (activateReactors numEventLoop w) in
  let added := drop (length (log w)) (log w') in
  mainLoop (st w') = mainLoop (st w)
  /\ (CallGo GoMainReactor ∉ added)
  /\ (forall r, CallGo (GoTicker r) ∉ added)
  /\ exists new, lb (st w') = lb (st w) ++ new
       /\ (((length new < Z.to_nat numEventLoop)%nat /\ Forall not_go added)
           \/ (length new = Z.to_nat numEventLoop
               /\ exists setup1 setup2,
                    added = setup1 ++ spawned GoSubReactor 0 (length (lb (st w'))) ++ setup2
                    /\ Forall not_go setup1 /\ Forall not_go setup2)).
Proof.
  rewrite activateReactors_unfold.
  destruct (appends_activateReactors_for (Z.to_nat numEventLoop) w)
    as (setup1 & Hlog1 & Hsetup1).
  destruct (activateReactors_for _ w) as [r w1] eqn:E.
  destruct (activateReactors_for_state _ _ _ _ E)
    as (new & Hlb & Hls & Ho & Hm & _ & Hfresh & Hlns & Hlen).
  simpl in Hlog1.
  assert (Hnone : forall l g, Forall not_go l -> CallGo g ∉ l).
  { intros l g Hl Hin. rewrite Forall_forall in Hl. apply (Hl _ Hin). }
  assert (Hsub : forall n0 k l1 l2 g,
             (forall i, g <> GoSubReactor i) ->
             Forall not_go l1 -> Forall not_go l2 ->
             CallGo g ∉ l1 ++ spawned GoSubReactor n0 k ++ l2).
  { intros n0 k l1 l2 g Hg H1 H2. rewrite !elem_of_app.
    intros [Hin|[Hin|Hin]]; [revert Hin; apply Hnone, H1| |revert Hin; apply Hnone, H2].
    unfold spawned in Hin. apply list_elem_of_In, in_flat_map in Hin.
    destruct Hin as (i & _ & Hin). simpl in Hin.
    destruct Hin as [Hin|[Hin|[]]]; [discriminate|].
    injection Hin as Hin. apply (Hg _ (eq_sym Hin)). }
  destruct r as [e|].
  { intros _. simpl. rewrite Hlog1, drop_app_length.
    split; [exact Hm|]. split; [apply Hnone, Hsetup1|].
    split; [intros r; apply Hnone, Hsetup1|].
    exists new. split; [exact Hlb|]. left. auto. }
  cbv zeta.
  destruct (OpenPoller (tick w1)) as [e|p].
  { intros _. simpl. rewrite Hlog1, <- !app_assoc, drop_app_length.
    split; [exact Hm|].
    split; [apply Hsub; [discriminate|exact Hsetup1|repeat constructor]|].
    split; [intros r; apply Hsub; [discriminate|exact Hsetup1|repeat constructor]|].
    exists new. split; [exact Hlb|]. right. split; [exact Hlen|].
    exists setup1, [CallOpenPoller]. repeat split; auto. repeat constructor. }
  match goal with |- context [addRead_listeners ?v ?el ?w3] =>
    pose proof (addRead_listeners_state v el w3) as S4;
    destruct (appends_addRead v el w3) as (setup2 & Hlog4 & Hsetup2);
    destruct (addRead_listeners v el w3) as [[[e|] ml] w4]
  end; [|discriminate].
  intros _. simpl in *.
  rewrite S4, Hlog4, Hlog1, <- !app_assoc, drop_app_length.
  split; [exact Hm|].
  assert (Hs2 : Forall not_go ([CallOpenPoller] ++ setup2))
    by (constructor; [exact I|exact Hsetup2]).
  split; [apply (Hsub _ _ _ ([CallOpenPoller] ++ setup2)); [discriminate|auto|auto]|].
  split; [intros r; apply (Hsub _ _ _ ([CallOpenPoller] ++ setup2));
          [discriminate|auto|auto]|].
  exists new. split; [exact Hlb|]. right. split; [exact Hlen|].
  exists setup1, ([CallOpenPoller] ++ setup2). auto.
Qed.

End WithExternals.


(** The same with a poller layer that cannot open a poller. *)
Lemma activateEventLoops_failure_starts_nothing_witness :
  let NP := closed_netpoll in
  let RT := Concrete.listed_runtime in
  let w := Concrete.world_of Concrete.reuseport_engine in
  fst (activateEventLoops 3 w) = Some Concrete.EBADF
  /\ Forall not_go (log (snd (activateEventLoops 3 w)))
  /\ listeners (st (snd (activateEventLoops 3 w))) = ∅.
Proof.
  intros NP RT w.
  assert (E : fst (activateEventLoops 3 w) = Some Concrete.EBADF)
    by (vm_compute; reflexivity).
  split; [exact E|].
  destruct (activateEventLoops_failure_starts_nothing (NP := NP) (RT := RT) 3 w _ E)
    as (Hgo & Hls & _).
  split; [exact Hgo|exact Hls].
Defined.


(** The same when the third poller, the main loop's, cannot be opened: the
    two sub-reactors are running, and there is no main loop. *)
Lemma activateReactors_failure_witness :
  let NP := exhausted_netpoll 2 in
  let RT := Concrete.listed_runtime in
  let w := Concrete.world_of reactor_engine in
  let w' := snd (activateReactors 2 w) in
  fst (activateReactors 2 w) = Some Concrete.EBADF
  /\ mainLoop (st w') = None
  /\ (CallGo GoMainReactor ∉ log w')
  /\ (CallGo (GoSubReactor 1) ∈ log w').
Proof.
  intros NP RT w w'.
  assert (E : fst (activateReactors 2 w) = Some Concrete.EBADF)
    by (vm_compute; reflexivity).
  split; [exact E|].
  destruct (activateReactors_failure (NP := NP) (RT := RT) 2 w _ E)
    as (Hml & Hmain & _ & _).
  split; [exact Hml|]. split; [exact Hmain|].
  assert (L : log w' =
    [CallOpenPoller; CallRegister 0; CallOpenPoller; CallRegister 1;
     CallWgAdd; CallGo (GoSubReactor 0); CallWgAdd; CallGo (GoSubReactor 1);
     CallOpenPoller]) by (vm_compute; reflexivity).
  rewrite L, list_elem_of_In. simpl. auto 10.
Defined.

(** One udp listener, without [ReusePort]: [start] runs the event loops. *)
Lemma start_uniform_listeners_witness :
  let NP := Concrete.queue_poller 0 None in
  let RT := Concrete.listed_runtime in
  let w := Concrete.world_of
             (Concrete.engine_of Concrete.no_options {[4 := Concrete.udp_listener]} []) in
  start 2 w = activateEventLoops 2 (ranged w).
Proof.
  intros NP RT w.
  apply (start_uniform_listeners (NP := NP) (RT := RT) 2 w "udp").
  - apply map_non_empty_singleton.
  - intros fd ln H. simpl in H.
    apply lookup_singleton_Some in H as [_ <-]. reflexivity.
  - right. exists 4, Concrete.udp_listener. split; reflexivity.
Defined.

End StartFacts.

Module StopMoreFacts.
Import Model External Loop Eng PollerFrame.
Import StopFacts.

Section WithExternals.
Context {NP : Netpoll} {RT : Runtime}.

Abbreviation notify := (fun _ : Z => let* _ := trigger_shutdown in ret true).

Lemma trigger_shutdown_run (w : lworld) :
  trigger_shutdown w =
  (tt, mkWorld (snd (on_poller (Poller_UrgentTrigger (tick w) TaskShutdown) (st w)))
               (S (tick w))
               (log w ++ shutdown_trace (tick w) [st w])).
Proof.
  unfold trigger_shutdown, bind, get, ext, on_poller. simpl.
  destruct (Poller_UrgentTrigger (tick w) TaskShutdown (el_poller (st w))) as [[e|] p];
    simpl; unfold emit, ret; simpl; rewrite <- ?app_assoc; reflexivity.
Qed.

Lemma notify_workers n :
  forall (i : nat) (w : eworld),
    (i + n = length (lb (st w)))%nat ->
    exists w',
      iterate_from n i notify w = (tt, w')
      /\ log w' = log w ++ shutdown_trace (tick w) (drop i (lb (st w)))
      /\ tick w' = (tick w + n)%nat
      /\ mainLoop (st w') = mainLoop (st w).
Proof.
  induction n as [|n IH]; intros i w Hlen.
  - exists w. simpl. rewrite drop_ge by lia. simpl. rewrite app_nil_r.
    auto with lia.
  - simpl. unfold bind at 1.
    destruct (lookup_lt_is_Some_2 (lb (st w)) i ltac:(lia)) as [el Hel].
    unfold at_loop. rewrite Hel.
    unfold bind at 1. rewrite trigger_shutdown_run. unfold ret at 1.
    cbv beta iota zeta. cbn [fst snd st tick log].
    match goal with |- context [iterate_from n (S i) notify ?w1] =>
      destruct (IH (S i) w1) as (w' & E & Hl & Ht & Hm) end.
    { cbn [st lb set_lb]. rewrite length_insert. lia. }
    exists w'. split; [exact E|].
    cbn [st tick log lb set_lb mainLoop] in Hl, Ht, Hm.
    rewrite Hl, Ht, Hm.
    rewrite drop_insert_lt by lia.
    rewrite (drop_S _ _ _ Hel).
    cbn [shutdown_trace]. rewrite app_nil_r, <- !app_assoc.
    split; [reflexivity|]. split; [lia|reflexivity].
Qed.

(** X10. Before the join, [stop] waits for the shutdown signal, calls
    [OnShutdown] once, and then hands the shutdown closure to every worker
    loop, once each and in the order of the load balancer, whether or not an
    earlier trigger failed; the listeners are closed and the main loop is
    notified only when there is a main loop. *)
Theorem stop_notifies_every_loop_once (s : Engine) (w : eworld) :
  exists after,
    log (snd (stop s w)) =
      log w
      ++ [CallWaitForShutdown; CallOnShutdown]
      ++ shutdown_trace (tick w) (lb (st w))
      ++ match mainLoop (st w) with
         | Some ml =>
             CallCloseAllListeners
             :: shutdown_trace (tick w + length (lb (st w))) [ml]
         | None => []
         end
      ++ [CallWgWait] ++ after ++ [CallStoreInShutdown 1].
Proof.
  rewrite stop_blocks. unfold bind at 1.
  assert (Hn : exists w1,
             stop_notify w = (tt, w1)
             /\ log w1 = log w ++ [CallWaitForShutdown; CallOnShutdown]
                  ++ shutdown_trace (tick w) (lb (st w))
                  ++ match mainLoop (st w) with
                     | Some ml =>
                         CallCloseAllListeners
                         :: shutdown_trace (tick w + length (lb (st w))) [ml]
                     | None => []
                     end).
  { unfold stop_notify, bind at 1, emit at 1. simpl.
    unfold bind at 1, emit at 1. simpl.
    unfold bind at 1, iterate, bind at 1, get at 1. simpl.
    match goal with |- context [iterate_from ?n 0 notify ?w0] =>
      destruct (notify_workers n 0 w0 eq_refl) as (w1 & -> & Hl & Ht & Hm)
    end.
    simpl in Hl, Ht, Hm. unfold bind at 1, get at 1. simpl.
    rewrite Hm. destruct (mainLoop (st w)) as [ml|] eqn:Hml.
    - unfold bind at 1, emit at 1. simpl.
      unfold at_mainLoop. simpl. rewrite Hm.
      rewrite trigger_shutdown_run. simpl.
      eexists. split; [reflexivity|]. simpl.
      rewrite Hl, Ht, drop_0, <- !app_assoc. simpl. reflexivity.
    - eexists. split; [reflexivity|]. rewrite Hl, drop_0, <- !app_assoc.
      simpl. rewrite app_nil_r. reflexivity. }
  destruct Hn as (w1 & -> & Hlog1).
  unfold bind at 1, emit at 1. simpl.
  set (wW := mkWorld (st w1) (tick w1) (log w1 ++ [CallWgWait])).
  destruct (stop_close_appends wW) as (after & EB & _).
  unfold bind. destruct (stop_close wW) as [[] wB]. simpl in EB.
  unfold atomic_StoreInt32_inShutdown. simpl.
  exists after. rewrite EB. subst wW. simpl. rewrite Hlog1, <- !app_assoc.
  simpl. destruct (mainLoop (st w)); simpl; rewrite <- ?app_assoc; reflexivity.
Qed.


(** *** What [stop] leaves alone *)





















End WithExternals.
End StopMoreFacts.

Module AcceptMoreFacts.
Import Model External Loop Server PollerFrame.
Import AcceptFacts.

Section WithExternals.
Context {NP : Netpoll} {SC : Syscalls}.

Abbreviation added m w := (drop (length (log w)) (log (snd (m w)))).

Ltac normalize_trace :=
  simpl; rewrite <- ?app_assoc; simpl; rewrite ?drop_app_length.

Ltac entries H :=
  rewrite list_elem_of_In in H; simpl in H;
  repeat (destruct H as [H|H]; [try discriminate|]); try (destruct H; fail).

Ltac listed := rewrite list_elem_of_In; simpl; auto 10.

(** The branches of [accept_on], one goal each. *)
Ltac register_branches w :=
  unfold register_on; simpl;
  match goal with |- context [svr_lb (st w) !! ?k] => set (i0 := k) end;
  match goal with |- context [CallNewTCPConn _ _ ?k] => set (c0 := k) end;
  match goal with |- context [svr_lb (st w) !! ?j] =>
    destruct (svr_lb (st w) !! j) as [el|] eqn:Hel
  end; simpl;
  [ match goal with |- context [on_poller ?f ?l] =>
      destruct (on_poller f l) as [[e0|] el'] eqn:Hreg
    end; simpl
  | ].

Ltac accept_on_branches w ln :=
  unfold accept_on, bind, ext_res, emit, get, ret; simpl;
  destruct (unix_Accept (tick w) _) as [aerr|[anfd asa]] eqn:Hacc; simpl;
  [ destruct (decide (aerr = EAGAIN)) as [Hagain|Hagain];
    [ rewrite (bool_decide_eq_true_2 _ Hagain)
    | rewrite (bool_decide_eq_false_2 _ Hagain) ];
    simpl
  | destruct (unix_SetNonblock (S (tick w)) anfd) as [nb|] eqn:Hnb; simpl;
    [ | destruct (bool_decide (0 < TCPKeepAlive (svr_opts (st w)))
                  && bool_decide (ln_network ln = "tcp")) eqn:Hka; simpl;
        register_branches w ] ].

Lemma accept_at_listener fd (w : sworld) :
  (exists ln, ln ∈ lns (st w) /\ fd = ln_fd ln /\ accept fd w = accept_on ln fd w)
  \/ accept fd w = (Returned None, w).
Proof.
  unfold accept, bind, get. simpl. apply accept_range_cases.
Qed.

(** X12. Readiness on a descriptor that is no listener of the server is
    ignored: [accept] returns nil, makes no system call and changes
    nothing. *)
Theorem accept_unknown_fd (fd : Z) (w : sworld) :
  (forall ln, ln ∈ lns (st w) -> ln_fd ln <> fd) ->
  accept fd w = (Returned None, w).
Proof.
  intros Hno. destruct (accept_at_listener fd w) as [(ln & Hin & Hfd & _)|E];
    [|exact E].
  exfalso. apply (Hno ln Hin). symmetry. exact Hfd.
Qed.

Lemma accept_on_error_results ln fd (w : sworld) err :
  fst (accept_on ln fd w) = Returned (Some err) ->
  st (snd (accept_on ln fd w)) = st w
  /\ ((err = ErrAcceptSocket
       /\ exists e, e <> EAGAIN
            /\ added (accept_on ln fd) w =
                 [CallUnixAccept fd (inl e); CallLogger Errorf (Some e)])
      \/ (exists nfd sa e,
            err = SyscallError "fcntl nonblock" e
            /\ added (accept_on ln fd) w =
                 [CallUnixAccept fd (inr (nfd, sa)); CallSetNonblock nfd (Some e)])).
Proof.
  accept_on_branches w ln; intros H; try discriminate.
  - injection H as <-. split; [reflexivity|]. left. split; [reflexivity|].
    exists aerr. split; [assumption|]. normalize_trace. reflexivity.
  - injection H as <-. split; [reflexivity|]. right.
    exists anfd, asa, nb. split; [reflexivity|]. normalize_trace. reflexivity.
Qed.

(** X13. [accept] returns an error in two cases only. Either [unix.Accept]
    failed with an error other than EAGAIN: the error is logged and
    [ErrAcceptSocket] is returned in its place. Or [unix.SetNonblock] failed
    on the accepted descriptor: its error is returned wrapped as the syscall
    error "fcntl nonblock", and nothing else is done, so the accepted
    descriptor is not closed. In both cases the server is as it was. *)
Theorem accept_error_results (fd : Z) (w : sworld) (err : error) :
  fst (accept fd w) = Returned (Some err) ->
  st (snd (accept fd w)) = st w
  /\ ((err = ErrAcceptSocket
       /\ exists e, e <> EAGAIN
            /\ added (accept fd) w =
                 [CallUnixAccept fd (inl e); CallLogger Errorf (Some e)])
      \/ (exists nfd sa e,
            err = SyscallError "fcntl nonblock" e
            /\ added (accept fd) w =
                 [CallUnixAccept fd (inr (nfd, sa)); CallSetNonblock nfd (Some e)])).
Proof.
  destruct (accept_at_listener fd w) as [(ln & _ & _ & E)|E]; rewrite E.
  - apply accept_on_error_results.
  - simpl. discriminate.
Qed.

Lemma accept_on_close_cause ln fd (w : sworld) nfd :
  CallUnixClose nfd ∈ added (accept_on ln fd) w ->
  exists i c e sa,
    CallRegisterTrigger i c (Some e) ∈ added (accept_on ln fd) w
    /\ CallUnixAccept fd (inr (nfd, sa)) ∈ added (accept_on ln fd) w
    /\ CallReleaseTCP c ∈ added (accept_on ln fd) w.
Proof.
  accept_on_branches w ln; normalize_trace; intros H; entries H;
    injection H as <-; exists i0, c0, e0, asa; repeat split; listed.
Qed.

(** X14. [accept] closes a descriptor only if it has accepted that very
    descriptor in this call and handing its connection to a loop has failed;
    the connection is then released as well. On every other path, the
    failure of [unix.SetNonblock] included, nothing is closed. *)
Theorem accept_closes_only_after_failed_register (fd : Z) (w : sworld) (nfd : Z) :
  CallUnixClose nfd ∈ added (accept fd) w ->
  exists i c e sa,
    CallRegisterTrigger i c (Some e) ∈ added (accept fd) w
    /\ CallUnixAccept fd (inr (nfd, sa)) ∈ added (accept fd) w
    /\ CallReleaseTCP c ∈ added (accept fd) w.
Proof.
  destruct (accept_at_listener fd w) as [(ln & _ & _ & E)|E]; rewrite E.
  - apply accept_on_close_cause.
  - simpl. rewrite drop_all. intros H. apply elem_of_nil in H. destruct H.
Qed.

Lemma Forall2_same_but_poller_refl l : Forall2 same_but_poller l l.
Proof.
  apply Forall2_same_length_lookup_2; [reflexivity|].
  intros i x y Hx Hy. assert (x = y) as -> by congruence. repeat split.
Qed.

Lemma on_poller_same {A} (f : poller -> A * poller) el :
  same_but_poller el (snd (on_poller f el)).
Proof. unfold on_poller. destruct (f (el_poller el)). repeat split. Qed.

Lemma Forall2_same_but_poller_insert l i el el' :
  l !! i = Some el -> same_but_poller el el' ->
  Forall2 same_but_poller l (<[i := el']> l).
Proof.
  intros Hel Hs.
  apply Forall2_same_length_lookup_2; [rewrite length_insert; reflexivity|].
  intros j x y Hx Hy.
  destruct (decide (j = i)) as [->|Hne].
  - rewrite list_lookup_insert_eq in Hy by (eapply lookup_lt_Some; exact Hel).
    assert (x = el) as -> by congruence. injection Hy as <-. exact Hs.
  - rewrite list_lookup_insert_ne in Hy by auto.
    assert (x = y) as -> by congruence. repeat split.
Qed.

Lemma accept_on_frame ln fd (w : sworld) :
  let w' := snd (accept_on ln fd w) in
  lns (st w') = lns (st w) /\ svr_opts (st w') = svr_opts (st w)
  /\ Forall2 same_but_poller (svr_lb (st w)) (svr_lb (st w'))
  /\ forall j, (forall c r, CallRegisterTrigger j c r ∉ added (accept_on ln fd) w) ->
       svr_lb (st w') !! j = svr_lb (st w) !! j.
Proof.
  accept_on_branches w ln;
    (split; [reflexivity|]); (split; [reflexivity|]); split;
    try apply Forall2_same_but_poller_refl; try (intros; reflexivity).
  all: try (eapply Forall2_same_but_poller_insert; [exact Hel|];
            match type of Hreg with
            | on_poller ?f ?l = _ =>
                pose proof (on_poller_same f l) as Hs; rewrite Hreg in Hs; exact Hs
            end).
  all: normalize_trace; intros j Hj;
    destruct (decide (j = i0)) as [->|Hne];
    [ exfalso; eapply Hj; listed
    | rewrite list_lookup_insert_ne by auto; reflexivity ].
Qed.

(** X15. [accept] changes the server in one place at most, the poller of
    the loop it has asked to register the new connection: the listeners and
    the options are the same, there are as many loops, every loop has the
    idx, the listeners, the buffer and the connections it had, and a loop
    that was not asked to register is unchanged. The new connection is not
    put into any connections map by [accept]. *)
Theorem accept_touches_only_chosen_poller (fd : Z) (w : sworld) :
  lns (st (snd (accept fd w))) = lns (st w)
  /\ svr_opts (st (snd (accept fd w))) = svr_opts (st w)
  /\ Forall2 same_but_poller (svr_lb (st w)) (svr_lb (st (snd (accept fd w))))
  /\ forall j, (forall c r, CallRegisterTrigger j c r ∉ added (accept fd) w) ->
       svr_lb (st (snd (accept fd w))) !! j = svr_lb (st w) !! j.
Proof.
  destruct (accept_at_listener fd w) as [(ln & _ & _ & E)|E]; rewrite E.
  - apply accept_on_frame.
  - simpl. repeat split; auto. apply Forall2_same_but_poller_refl.
Qed.



End WithExternals.

Lemma accept_unknown_fd_witness :
  let NP := Concrete.refusing_poller in
  let SC := Concrete.peer_syscalls in
  let w := Concrete.world_of
             (mkServer [Concrete.tcp_listener] [Concrete.loop_with_conn]
                       Concrete.no_options) in
  accept 9 w = (Returned None, w).
Proof.
  intros NP SC w. apply accept_unknown_fd.
  intros ln Hin. rewrite list_elem_of_In in Hin. simpl in Hin.
  destruct Hin as [<-|[]]. simpl. lia.
Defined.

Lemma accept_error_results_witness :
  let NP := Concrete.refusing_poller in
  let SC := ConcreteAccept.blocking_syscalls in
  let w := Concrete.world_of
             (mkServer [Concrete.tcp_listener] [Concrete.loop_with_conn]
                       Concrete.no_options) in
  fst (accept 3 w) = Returned (Some (SyscallError "fcntl nonblock" Concrete.EBADF))
  /\ st (snd (accept 3 w)) = st w.
Proof.
  intros NP SC w. split; [reflexivity|].
  apply (accept_error_results (NP := NP) (SC := SC) 3 w
           (SyscallError "fcntl nonblock" Concrete.EBADF)).
  reflexivity.
Defined.

Lemma accept_closes_only_after_failed_register_witness :
  let NP := Concrete.refusing_poller in
  let SC := Concrete.peer_syscalls in
  let w := Concrete.world_of
             (mkServer [Concrete.tcp_listener] [Concrete.loop_with_conn]
                       Concrete.no_options) in
  exists i c e sa,
    CallRegisterTrigger i c (Some e) ∈ drop (length (log w)) (log (snd (accept 3 w)))
    /\ CallUnixAccept 3 (inr (50, sa)) ∈ drop (length (log w)) (log (snd (accept 3 w)))
    /\ CallReleaseTCP c ∈ drop (length (log w)) (log (snd (accept 3 w))).
Proof.
  intros NP SC w.
  apply (accept_closes_only_after_failed_register (NP := NP) (SC := SC) 3 w 50).
  assert (E : log (snd (accept 3 w)) =
    [CallUnixAccept 3 (inr (50, "10.0.0.9:4242")); CallSetNonblock 50 None;
     CallLbNext "10.0.0.9:4242" 0; CallNewTCPConn 50 0 (mkConn 50 1 false []);
     CallRegisterTrigger 0 (mkConn 50 1 false []) (Some Concrete.EBADF);
     CallUnixClose 50; CallReleaseTCP (mkConn 50 1 false [])])
    by (vm_compute; reflexivity).
  rewrite E. simpl. rewrite list_elem_of_In. simpl. auto 10.
Defined.


End AcceptMoreFacts.

Module ExitLogFacts.
Import Model External Errors Loop.
Import ReactorFacts.

Section WithExternals.
Context {CO : ConnOps} {UC : UserCode} {LO : LoopOps} {NP : Netpoll}.

(** What an entry function logs after [Polling] has returned [perr], in a
    trace tail made of the exit branch, the closing calls and the deferred
    unlock. *)
Lemma exit_log_entries perr mid o :
  (forall lvl e, CallLogger lvl e ∉ mid) ->
  let tail := exit_trace perr ++ mid ++ unlock_trace o in
  (forall e, CallLogger Errorf e ∈ tail <-> (exit_value perr = e /\ e <> None))
  /\ (forall e, CallLogger Debugf e ∈ tail <->
        (e = perr /\ errors_Is perr ErrEngineShutdown = true)).
Proof.
  intros Hmid tail. subst tail.
  assert (Hun : forall lvl e, CallLogger lvl e ∉ unlock_trace o).
  { intros lvl e. unfold unlock_trace.
    destruct (LockOSThread o); rewrite list_elem_of_In; simpl; intuition discriminate. }
  unfold exit_trace, exit_value.
  destruct (errors_Is perr ErrEngineShutdown) eqn:His.
  - split; intros e; rewrite !elem_of_app, list_elem_of_In; simpl; split.
    + intros [[H|[]]|[H|H]]; [discriminate|exfalso; eapply Hmid; eauto
                               |exfalso; eapply Hun; eauto].
    + intros [<- Hne]. congruence.
    + intros [[H|[]]|[H|H]]; [injection H as <-; auto|exfalso; eapply Hmid; eauto
                               |exfalso; eapply Hun; eauto].
    + intros [-> _]. auto.
  - destruct perr as [pe|].
    + split; intros e; rewrite !elem_of_app, list_elem_of_In; simpl; split.
      * intros [[H|[]]|[H|H]]; [injection H as <-; split; [reflexivity|discriminate]
                                 |exfalso; eapply Hmid; eauto
                                 |exfalso; eapply Hun; eauto].
      * intros [<- _]. auto.
      * intros [[H|[]]|[H|H]]; [discriminate|exfalso; eapply Hmid; eauto
                                 |exfalso; eapply Hun; eauto].
      * intros [_ H]. discriminate.
    + split; intros e; rewrite !elem_of_app, list_elem_of_In; simpl; split.
      * intros [[]|[H|H]]; [exfalso; eapply Hmid; eauto|exfalso; eapply Hun; eauto].
      * intros [<- Hne]. congruence.
      * intros [[]|[H|H]]; [exfalso; eapply Hmid; eauto|exfalso; eapply Hun; eauto].
      * intros [_ H]. discriminate.
Qed.

(** X18. What [run], [orbit] and [rotate] log once [Polling] has returned:
    an error-level entry exactly for the error the function returns, when it
    returns one, and a debug-level entry exactly for the error [Polling]
    returned when that error matches [ErrEngineShutdown]. An error a loop
    returns has always been logged; the shutdown sentinel is never logged as
    an error; a clean return of [Polling] logs nothing. *)
Theorem exit_logged_as_returned (o : Options) (w : lworld) :
  let polled h := Poller_Polling h (entered o w) in
  let tail h (res : option error * lworld) :=
    drop (length (log (snd (polled h)))) (log (snd res)) in
  let logs h res :=
    (forall e, CallLogger Errorf e ∈ tail h res <-> (fst res = e /\ e <> None))
    /\ (forall e, CallLogger Debugf e ∈ tail h res <->
          (e = fst (polled h)
           /\ errors_Is (fst (polled h)) ErrEngineShutdown = true)) in
  logs run_handler (run o w)
  /\ logs orbit_handler (orbit o w)
  /\ logs rotate_handler (rotate o w).
Proof.
  intros polled tail logs. subst polled tail logs. cbv beta.
  pose proof (run_spec o w) as Hrun. pose proof (orbit_spec o w) as Horbit.
  pose proof (rotate_spec o w) as Hrotate. cbv zeta in Hrun, Horbit, Hrotate.
  rewrite Hrun, Horbit, Hrotate. simpl fst. simpl snd. simpl log.
  rewrite !drop_app_length.
  split; [|split].
  - apply (exit_log_entries _ [CallCloseConns; CallEngineShutdown _]).
    intros lvl e. rewrite list_elem_of_In. simpl. intuition discriminate.
  - apply (exit_log_entries _ [CallCloseConns; CallEngineShutdown _]).
    intros lvl e. rewrite list_elem_of_In. simpl. intuition discriminate.
  - apply (exit_log_entries _ [CallEngineShutdown _]).
    intros lvl e. rewrite list_elem_of_In. simpl. intuition discriminate.
Qed.

End WithExternals.
End ExitLogFacts.
